(** * The validator API routes (vali_utils/api/routes.py)

    A shallow embedding of the three request handlers of the validator API,
    [query_data], [get_label_sizes] and [get_age_sizes], with the properties
    of peer selection, dispatch, merging, the aggregate reads and the error
    paths.

    Python values are modelled as follows.
    - [int] is [Z]; [len] and list positions are [nat].
    - [float] (incentive weights, credibility, SQLite REAL columns) is [Q]:
      rounding and NaN are outside the model.
    - [str] is [string], restricted to ASCII text.
    - [list] is [list]; the [set] of hashes is a [gset Z]; the [DataSource]
      enum is a [gmap] from member names to values.
    - A handler is a computation over the trace of the effects it performs
      (log lines, the remote call, lock and store operations) that either
      returns a value or raises an exception. *)

From Stdlib Require Import ZArith QArith List String Ascii Sorted Permutation Lia.
From stdpp Require Import gmap strings list pretty.

Open Scope string_scope.
Open Scope Z_scope.
Open Scope list_scope.

(** ** Strings *)

(** [c.upper()] on an ASCII character. *)
Definition upper_ascii (c : ascii) : ascii :=
  let n := nat_of_ascii c in
  if ((97 <=? n)%nat && (n <=? 122)%nat)%bool then ascii_of_nat (n - 32) else c.

(** [s.upper()]. *)
Fixpoint upper (s : string) : string :=
  match s with
  | EmptyString => EmptyString
  | String c s' => String (upper_ascii c) (upper s')
  end.

(** ** Exceptions and HTTP responses *)

(** The exceptions the handlers see.  All of them derive from Python's
    [Exception], [HTTPException] included (fastapi.HTTPException extends
    starlette's, which extends [Exception]). *)
Inductive Exn :=
| HTTPException (status_code : Z) (detail : string)
| KeyError (key : string)
| IndexError (msg : string)
| OtherException (msg : string).

Inductive Result (A : Type) :=
| Ok (a : A)
| Raise (e : Exn).
Arguments Ok {A} a.
Arguments Raise {A} e.

(** The status line the framework sends for the outcome of a handler: 200
    for a returned value, the exception's own status for an [HTTPException],
    and an internal server error for anything else. *)
Definition http_status {A} (r : Result A) : Z :=
  match r with
  | Ok _ => 200
  | Raise (HTTPException status_code _) => status_code
  | Raise _ => 500
  end.

Definition is_KeyError (e : Exn) : bool :=
  match e with KeyError _ => true | _ => false end.

(** ** Effects *)

Record Axon := { ip : string; port : Z }.

(** The synapse sent to a miner (common.protocol.OnDemandRequest). *)
Record OnDemandRequest := {
  od_source : Z;
  od_usernames : list string;
  od_keywords : list string;
  od_start_date : option string;
  od_end_date : option string;
  od_limit : Z
}.

(** The two SQL statements of the module. *)
Inductive Query := SelectLabelSizes | SelectAgeSizes.

Inductive Event :=
| LogError (msg : string)
| DendriteOpen
| DendriteClose
| Forward (axons : list Axon) (synapse : OnDemandRequest) (timeout : Z)
| LockAcquire
| LockRelease
| ConnCreate
| ConnCursor
| CursorExecute (q : Query) (params : list Z)
| CursorFetchall
| ConnClose.

(** A handler body: it extends the trace of effects and returns or raises.
    The trace survives an exception. *)
Definition M (A : Type) : Type := list Event -> Result A * list Event.

Definition ret {A} (a : A) : M A := fun t => (Ok a, t).

Definition raise {A} (e : Exn) : M A := fun t => (Raise e, t).

Definition bind {A B} (m : M A) (k : A -> M B) : M B :=
  fun t =>
    match m t with
    | (Ok a, t') => k a t'
    | (Raise e, t') => (Raise e, t')
    end.

Definition emit (ev : Event) : M unit := fun t => (Ok tt, t ++ [ev]).

(** [try: body / except Exception as e: handler e]. *)
Definition try_except {A} (body : M A) (handler : Exn -> M A) : M A :=
  fun t =>
    match body t with
    | (Ok a, t') => (Ok a, t')
    | (Raise e, t') => handler e t'
    end.

(** [try: body / except KeyError: handler]: other exceptions pass through. *)
Definition try_except_KeyError {A} (body : M A) (handler : M A) : M A :=
  fun t =>
    match body t with
    | (Ok a, t') => (Ok a, t')
    | (Raise e, t') => if is_KeyError e then handler t' else (Raise e, t')
    end.

(** A context manager: [enter], the body, then [leave] on every exit, and
    the body's value or exception is what comes out. *)
Definition with_context {A} (enter leave : Event) (body : M A) : M A :=
  fun t =>
    match body (t ++ [enter]) with
    | (r, t') => (r, t' ++ [leave])
    end.

Declare Scope handler_scope.
Delimit Scope handler_scope with handler.
Notation "x <- m ;; k" := (bind m (fun x => k))
  (at level 100, m at next level, right associativity) : handler_scope.
Notation "m ;;; k" := (bind m (fun _ => k))
  (at level 100, right associativity) : handler_scope.
Open Scope handler_scope.

(** [bt.logging.error(msg)]. *)
Definition logging_error (msg : string) : M unit := emit (LogError msg).

(** ** Built-ins *)

(** [sorted(l, key=key, reverse=True)]: descending by key, and stable (items
    with equal keys keep their order).  [leb] is [<=] on the keys. *)
Section Sorted.
Context {A K : Type} (leb : K -> K -> bool) (key : A -> K).

Fixpoint insert_reverse (x : A) (l : list A) : list A :=
  match l with
  | [] => [x]
  | y :: l' =>
      if leb (key y) (key x) then x :: y :: l' else y :: insert_reverse x l'
  end.

Definition sorted_reverse (l : list A) : list A := foldr insert_reverse [] l.

(** [a] may stand before [b] in a descending order. *)
Definition desc (a b : A) : Prop := leb (key b) (key a) = true.
End Sorted.

(** [l[:k]]: the first [k] items, and for a negative [k] all but the last
    [-k]. *)
Definition slice_to {A} (k : Z) (l : list A) : list A :=
  if 0 <=? k then take (Z.to_nat k) l
  else take (length l - Z.to_nat (- k))%nat l.

(** [random.choice(seq)]: the item at a drawn position, [rnd] being the raw
    draw; an empty sequence raises [IndexError]. *)
Definition random_choice {A} (rnd : nat) (seq : list A) : M A :=
  match seq !! (rnd mod length seq)%nat with
  | Some x => ret x
  | None => raise (IndexError "Cannot choose from an empty sequence")
  end.

(** ** The membership view *)

(** Modelled from the spec: the metagraph is declared outside this module; the
    spec describes it as a peer-membership view exposing, for each peer
    identifier, a trust weight, an endpoint and a role (peer or coordinator). *)
Record Metagraph := {
  uids : list Z;
  I : Z -> Q;
  axons : Z -> Axon;
  coordinator : Z -> bool
}.

(** Modelled from the spec: common.utils.is_miner, the role flag of a peer. *)
Definition is_miner (uid : Z) (metagraph : Metagraph) : bool :=
  negb (coordinator metagraph uid).

(** Modelled from the spec: common.utils.get_miner_uids, given the full peer
    set and the coordinator's own identifier, returns the subset excluding
    coordinators and the caller itself. *)
Definition get_miner_uids (metagraph : Metagraph) (my_uid : Z) : list Z :=
  List.filter (fun u => is_miner u metagraph && negb (u =? my_uid))
    (uids metagraph).

(** ** The statistics store *)

(** Modelled from the spec: the tables are declared by the storage module,
    outside this one; their columns are the ones the two statements name. *)
Module APILabelSize.
Record row := {
  source : Z;
  labelValue : string;
  contentSizeBytes : Z;
  adjContentSizeBytes : Q
}.
End APILabelSize.

Module Miner.
Record row := { minerId : Z; credibility : Q }.
End Miner.

Module MinerIndex.
Record row := {
  minerId : Z;
  source : Z;
  timeBucketId : Z;
  contentSizeBytes : Z
}.
End MinerIndex.

(** The calls made on the store, each of which may raise. *)
Inductive StoreCall :=
| create_connection | cursor | execute | fetchall | close.

Record Storage := {
  tblAPILabelSize : list APILabelSize.row;
  tblMiner : list Miner.row;
  tblMinerIndex : list MinerIndex.row;
  (** the exception a call on the store raises, if it does *)
  failure : StoreCall -> option Exn
}.

Record Validator := {
  metagraph : Metagraph;
  uid : Z;
  storage : Storage
}.

(** ** Models (vali_utils/api/models.py) *)

Record QueryRequest := {
  source : string;
  usernames : list string;
  keywords : list string;
  start_date : option string;
  end_date : option string;
  limit : Z
}.

Module LabelSize.
Record t := {
  label_value : string;
  content_size_bytes : Z;
  adj_content_size_bytes : Q
}.
End LabelSize.

Module AgeSize.
Record t := {
  time_bucket_id : Z;
  content_size_bytes : Z;
  adj_content_size_bytes : Q
}.
End AgeSize.

Module HealthResponse.
Record t := {
  status : string;
  timestamp : Z;
  miners_available : nat
}.
End HealthResponse.

Record Meta := {
  total_responses : nat;
  unique_items : nat;
  miners_queried : nat;
  total_miners : nat
}.

Record QueryResponse (Item : Type) := {
  status : string;
  data : list Item;
  meta : Meta
}.
Arguments status {Item} _.
Arguments data {Item} _.
Arguments meta {Item} _.

(** ** The network *)

(** What [dendrite.forward] brings back: the response's [data] ([None] for a
    response without one), or the exception it raises (a timeout, a
    transport error). *)
Inductive ForwardOutcome (Item : Type) :=
| Responds (response_data : option (list Item))
| Fails (e : Exn).
Arguments Responds {Item} response_data.
Arguments Fails {Item} e.

Definition Network (Item : Type) : Type :=
  list Axon -> OnDemandRequest -> Z -> ForwardOutcome Item.

(** ** A small deployment for the examples

    Two coordinators (0, the caller, and 1) and the two peers of the spec's
    scenario: peer 5 with weight 10 and peer 7 with weight 5.  Items are
    strings. *)

Module Sample.

Definition str_item (item : string) : string := item.

Definition hash (s : string) : Z :=
  fold_left (fun h c => (h * 31 + Z.of_nat (nat_of_ascii c)) mod 2 ^ 61)
    (list_ascii_of_string s) 7.

Definition str_exn (e : Exn) : string :=
  match e with
  | HTTPException status_code detail => pretty status_code +:+ ": " +:+ detail
  | KeyError key => "'" +:+ key +:+ "'"
  | IndexError msg => msg
  | OtherException msg => msg
  end.

Definition DataSource : gmap string Z := <["REDDIT" := 1]> (<["X" := 2]> ∅).

Definition peers : Metagraph := {|
  uids := [0; 1; 5; 7];
  I := fun u => if u =? 5 then 10 # 1 else if u =? 7 then 5 # 1 else 0 # 1;
  axons := fun u => {| ip := "10.0.0." +:+ pretty u; port := 8091 |};
  coordinator := fun u => (u =? 0) || (u =? 1)
|}.

Definition no_failure : StoreCall -> option Exn := fun _ => None.


Definition store (failure : StoreCall -> option Exn) : Storage := {|
  tblAPILabelSize := [
    {| APILabelSize.source := 1; APILabelSize.labelValue := "r/bittensor_";
       APILabelSize.contentSizeBytes := 400; APILabelSize.adjContentSizeBytes := 300 # 1 |};
    {| APILabelSize.source := 2; APILabelSize.labelValue := "#bittensor";
       APILabelSize.contentSizeBytes := 900; APILabelSize.adjContentSizeBytes := 800 # 1 |};
    {| APILabelSize.source := 1; APILabelSize.labelValue := "r/bitcoin";
       APILabelSize.contentSizeBytes := 700; APILabelSize.adjContentSizeBytes := 350 # 1 |}
  ];
  tblMiner := [
    {| Miner.minerId := 1; Miner.credibility := 1 # 2 |};
    {| Miner.minerId := 2; Miner.credibility := 1 # 1 |}
  ];
  tblMinerIndex := [
    {| MinerIndex.minerId := 1; MinerIndex.source := 1;
       MinerIndex.timeBucketId := 100; MinerIndex.contentSizeBytes := 40 |};
    {| MinerIndex.minerId := 2; MinerIndex.source := 1;
       MinerIndex.timeBucketId := 101; MinerIndex.contentSizeBytes := 10 |};
    {| MinerIndex.minerId := 2; MinerIndex.source := 1;
       MinerIndex.timeBucketId := 100; MinerIndex.contentSizeBytes := 6 |};
    {| MinerIndex.minerId := 1; MinerIndex.source := 2;
       MinerIndex.timeBucketId := 101; MinerIndex.contentSizeBytes := 5 |}
  ];
  failure := failure
|}.

Definition validator (failure : StoreCall -> option Exn) : Validator :=
  {| metagraph := peers; uid := 0; storage := store failure |}.

(** A membership view with no peer besides the caller. *)
Definition lonely_validator : Validator :=
  {| metagraph := {| uids := [0]; I := I peers; axons := axons peers;
                     coordinator := coordinator peers |};
     uid := 0; storage := store no_failure |}.

Definition request (source : string) (limit : Z) : QueryRequest := {|
  source := source; usernames := []; keywords := ["tao"];
  start_date := None; end_date := None; limit := limit
|}.

(** A peer that answers four items, two of them with the same string form. *)
Definition answering : Network string :=
  fun _ _ _ => Responds (Some ["a"; "b"; "a"; "c"]).

(** A peer that does not answer in time. *)
Definition timing_out : Network string :=
  fun _ _ _ => Fails (OtherException "TimeoutError").

End Sample.

(** ** The handlers *)

Section Routes.

(** A result item is an opaque record: [str_item] is [str(item)] and [hash]
    is Python's [hash] on strings. *)
Context {Item : Type} (str_item : Item -> string) (hash : string -> Z).

(** [str(e)] on an exception; its format depends on the exception class. *)
Context (str_exn : Exn -> string).

(** common.data.DataSource: the enum's member names and their values. *)
Context (DataSource : gmap string Z).

(** [DataSource[name]]. *)
Definition DataSource_getitem (name : string) : M Z :=
  match DataSource !! name with
  | Some value => ret value
  | None => raise (KeyError name)
  end.

(** [await dendrite.forward(axons=axons, synapse=synapse, timeout=timeout)]. *)
Definition dendrite_forward (net : Network Item) (axons : list Axon)
    (synapse : OnDemandRequest) (timeout : Z) : M (option (list Item)) :=
  emit (Forward axons synapse timeout);;;
  match net axons synapse timeout with
  | Responds response_data => ret response_data
  | Fails e => raise e
  end.

(** The peers ranked by incentive, top half (lines 33-37). *)
Definition qualified_miners (validator : Validator) (miner_uids : list Z) : list Z :=
  take (length miner_uids / 2)%nat
    (sorted_reverse Qle_bool (I (metagraph validator)) miner_uids).

(** One turn of the inner loop of "Process data" (lines 78-81). *)
Definition process_item (acc : list Item * gset Z) (item : Item) : list Item * gset Z :=
  let '(all_data, seen) := acc in
  let item_hash := hash (str_item item) in
  if decide (item_hash ∈ seen) then (all_data, seen)
  else (all_data ++ [item], seen ∪ {[item_hash]}).

(** "Process data" (lines 74-81): the final [all_data] and [seen]. *)
Definition process_data (responses : list (list Item)) : list Item * gset Z :=
  fold_left (fun acc response => fold_left process_item response acc)
    responses ([], ∅).

(** The request synapse (lines 43-50), once the source is looked up. *)
Definition make_synapse (request : QueryRequest) (source_id : Z) : OnDemandRequest := {|
  od_source := source_id;
  od_usernames := usernames request;
  od_keywords := keywords request;
  od_start_date := start_date request;
  od_end_date := end_date request;
  od_limit := limit request
|}.

(** The response body (lines 74-92). *)
Definition success (request : QueryRequest) (miners miner_uids : list Z)
    (responses : list (list Item)) : QueryResponse Item :=
  let all_data := (process_data responses).1 in
  {|
    status := "success";
    data := slice_to (limit request) all_data;
    meta := {|
      total_responses := length responses;
      unique_items := length all_data;
      miners_queried := length miners;
      total_miners := length miner_uids
    |}
  |}.

(** POST /query. *)
Definition query_data (request : QueryRequest) (validator : Validator)
    (rnd : nat) (net : Network Item) : M (QueryResponse Item) :=
  try_except
    (let miner_uids := get_miner_uids (metagraph validator) (uid validator) in
     let miners := qualified_miners validator miner_uids in
     match miners with
     | [] => raise (HTTPException 503 "No miners available")
     | _ :: _ =>
         source_id <- DataSource_getitem (upper (source request));;
         let synapse := make_synapse request source_id in
         responses <-
           with_context DendriteOpen DendriteClose
             (uid <- random_choice rnd miner_uids;;
              if is_miner uid (metagraph validator) then
                let axon := axons (metagraph validator) uid in
                try_except
                  (response <- dendrite_forward net [axon] synapse 30;;
                   match response with
                   | Some (item :: items) => ret [item :: items]
                   | _ => ret []
                   end)
                  (fun e =>
                     logging_error
                       ("Error querying miner " +:+ pretty uid +:+ ": " +:+ str_exn e);;;
                     ret [])
              else ret []);;
         ret (success request miners miner_uids responses)
     end)
    (fun e =>
       logging_error ("Error processing request: " +:+ str_exn e);;;
       raise (HTTPException 500 (str_exn e))).

(** A call on the store: it raises if the store fails it, and is recorded in
    the trace once it has completed. *)
Definition store_call (st : Storage) (c : StoreCall) (ev : Event) : M unit :=
  match failure st c with
  | Some e => raise e
  | None => emit ev
  end.

(** SQL [SUM] over integers and over reals. *)
Definition sum_Z (l : list Z) : Z := fold_left Z.add l 0.
Definition sum_Q (l : list Q) : Q := fold_left Qplus l (0 # 1).

(** The statement of [get_label_sizes] (lines 127-135):
    SELECT labelValue, contentSizeBytes, adjContentSizeBytes
    FROM APILabelSize WHERE source = ? ORDER BY adjContentSizeBytes DESC *)
Definition select_label_sizes (st : Storage) (source_id : Z) : list (string * Z * Q) :=
  sorted_reverse Qle_bool (fun row => row.2)
    (map (fun r => (APILabelSize.labelValue r,
                    APILabelSize.contentSizeBytes r,
                    APILabelSize.adjContentSizeBytes r))
       (List.filter (fun r => APILabelSize.source r =? source_id)
          (tblAPILabelSize st))).

(** [Miner JOIN MinerIndex USING (minerId)]. *)
Definition miner_join_index (st : Storage) : list (Miner.row * MinerIndex.row) :=
  flat_map
    (fun m =>
       map (pair m)
         (List.filter (fun i => MinerIndex.minerId i =? Miner.minerId m)
            (tblMinerIndex st)))
    (tblMiner st).

(** The statement of [get_age_sizes] (lines 171-181):
    SELECT timeBucketId, SUM(contentSizeBytes) as contentSizeBytes,
           SUM(contentSizeBytes * credibility) as adjContentSizeBytes
    FROM Miner JOIN MinerIndex USING (minerId)
    WHERE source = ? GROUP BY timeBucketId ORDER BY timeBucketId DESC *)
Definition select_age_sizes (st : Storage) (source_id : Z) : list (Z * Z * Q) :=
  let rows :=
    List.filter (fun j => MinerIndex.source j.2 =? source_id) (miner_join_index st) in
  let groups := remove_dups (map (fun j => MinerIndex.timeBucketId j.2) rows) in
  sorted_reverse Z.leb (fun row => row.1.1)
    (map
       (fun b =>
          let group :=
            List.filter (fun j => MinerIndex.timeBucketId j.2 =? b) rows in
          (b,
           sum_Z (map (fun j => MinerIndex.contentSizeBytes j.2) group),
           sum_Q (map (fun j => (inject_Z (MinerIndex.contentSizeBytes j.2)
                                 * Miner.credibility j.1)%Q) group)))
       groups).

(** GET /labels/{source}. *)
Definition get_label_sizes (source : string) (validator : Validator)
    : M (list LabelSize.t) :=
  try_except
    (source_id <-
       try_except_KeyError
         (DataSource_getitem (upper source))
         (raise (HTTPException 400 ("Invalid source: " +:+ source)));;
     let st := storage validator in
     with_context LockAcquire LockRelease
       (store_call st create_connection ConnCreate;;;
        store_call st cursor ConnCursor;;;
        store_call st execute (CursorExecute SelectLabelSizes [source_id]);;;
        store_call st fetchall CursorFetchall;;;
        let labels :=
          map (fun row => {|
                 LabelSize.label_value := row.1.1;
                 LabelSize.content_size_bytes := row.1.2;
                 LabelSize.adj_content_size_bytes := row.2
               |})
            (select_label_sizes st source_id) in
        store_call st close ConnClose;;;
        ret labels))
    (fun e =>
       logging_error ("Error getting label sizes: " +:+ str_exn e);;;
       raise (HTTPException 500 (str_exn e))).

(** GET /ages/{source}. *)
Definition get_age_sizes (source : string) (validator : Validator)
    : M (list AgeSize.t) :=
  try_except
    (source_id <-
       try_except_KeyError
         (DataSource_getitem (upper source))
         (raise (HTTPException 400 ("Invalid source: " +:+ source)));;
     let st := storage validator in
     with_context LockAcquire LockRelease
       (store_call st create_connection ConnCreate;;;
        store_call st cursor ConnCursor;;;
        store_call st execute (CursorExecute SelectAgeSizes [source_id]);;;
        store_call st fetchall CursorFetchall;;;
        let ages :=
          map (fun row => {|
                 AgeSize.time_bucket_id := row.1.1;
                 AgeSize.content_size_bytes := row.1.2;
                 AgeSize.adj_content_size_bytes := row.2
               |})
            (select_age_sizes st source_id) in
        store_call st close ConnClose;;;
        ret ages))
    (fun e =>
       raise (HTTPException 500 ("Error retrieving age sizes: " +:+ str_exn e))).

(** ** Observations on a trace *)



(** The connections opened and not yet closed after the events of [t]. *)
Definition open_connections (t : list Event) : nat :=
  fold_left
    (fun n ev =>
       match ev with
       | ConnCreate => S n
       | ConnClose => pred n
       | _ => n
       end)
    t 0%nat.


Definition is_Forward (ev : Event) : bool :=
  match ev with Forward _ _ _ => true | _ => false end.

(** The remote invocations issued in [t]. *)
Definition forwards (t : list Event) : list Event := List.filter is_Forward t.


(** The records the handlers build from the rows fetched. *)
Definition label_size_of (row : string * Z * Q) : LabelSize.t := {|
  LabelSize.label_value := row.1.1;
  LabelSize.content_size_bytes := row.1.2;
  LabelSize.adj_content_size_bytes := row.2
|}.

Definition age_size_of (row : Z * Z * Q) : AgeSize.t := {|
  AgeSize.time_bucket_id := row.1.1;
  AgeSize.content_size_bytes := row.1.2;
  AgeSize.adj_content_size_bytes := row.2
|}.

(** The trace of a read of the store that runs to its end. *)
Definition full_read (q : Query) (source_id : Z) : list Event :=
  [LockAcquire; ConnCreate; ConnCursor; CursorExecute q [source_id];
   CursorFetchall; ConnClose; LockRelease].


(** ** The merge as the spec words it *)

(** The content identity of an item. *)
Definition identity (item : Item) : Z := hash (str_item item).

(** The first occurrence of each identity, in order of arrival. *)
Fixpoint first_occurrences (l : list Item) : list Item :=
  match l with
  | [] => []
  | x :: l' => x :: filter (fun y => identity y ≠ identity x) (first_occurrences l')
  end.

(** The outcome of the one remote call: the payloads collected and the
    lines logged. *)
Definition collected (outcome : ForwardOutcome Item) (uid : Z)
    : list (list Item) * list Event :=
  match outcome with
  | Responds (Some (item :: items)) => ([item :: items], [])
  | Responds _ => ([], [])
  | Fails e =>
      ([], [LogError ("Error querying miner " +:+ pretty uid +:+ ": " +:+ str_exn e)])
  end.

(** The rows of the join that contribute to a bucket of a source. *)
Definition contributing (st : Storage) (source_id b : Z)
    : list (Miner.row * MinerIndex.row) :=
  List.filter
    (fun j => (MinerIndex.source j.2 =? source_id) && (MinerIndex.timeBucketId j.2 =? b))
    (miner_join_index st).

(** ** The dependency, the health check and the routes *)

(** [get_validator] (lines 17-21): [api] is the attribute the API server
    sets on the function when it starts, absent before; what is returned is
    its validator. *)
Definition get_validator (api : option Validator) : M Validator :=
  match api with
  | None => raise (HTTPException 503 "API server not initialized")
  | Some validator => ret validator
  end.

(** [validator=Depends(get_validator)]: the dependency is resolved before the
    handler is called, outside the handler's own [try]; what it raises is the
    outcome of the request. *)
Definition depends_validator {A} (api : option Validator)
    (handler : Validator -> M A) : M A :=
  validator <- get_validator api;;
  handler validator.

(** GET /health (lines 100-107).  [is_healthy] is what
    [validator.is_healthy()] answers and [utcnow] the reading of the clock. *)
Definition health_check (validator : Validator) (is_healthy : bool)
    (utcnow : Z) : M HealthResponse.t :=
  let miner_uids := get_miner_uids (metagraph validator) (uid validator) in
  ret {|
    HealthResponse.status := if is_healthy then "healthy" else "unhealthy";
    HealthResponse.timestamp := utcnow;
    HealthResponse.miners_available := length miner_uids
  |}.

(** The four routes of the router, each handler behind its dependency. *)
Definition route_query (api : option Validator) (request : QueryRequest)
    (rnd : nat) (net : Network Item) : M (QueryResponse Item) :=
  depends_validator api (fun validator => query_data request validator rnd net).

Definition route_health (api : option Validator) (is_healthy : bool)
    (utcnow : Z) : M HealthResponse.t :=
  depends_validator api (fun validator => health_check validator is_healthy utcnow).

Definition route_labels (api : option Validator) (source : string)
    : M (list LabelSize.t) :=
  depends_validator api (get_label_sizes source).

Definition route_ages (api : option Validator) (source : string)
    : M (list AgeSize.t) :=
  depends_validator api (get_age_sizes source).

(** ** More observations *)

Definition is_LogError (ev : Event) : bool :=
  match ev with LogError _ => true | _ => false end.

(** The lines logged in [t]. *)
Definition log_lines (t : list Event) : list Event := List.filter is_LogError t.

(** Whether every call on the store succeeds. *)
Definition store_sound (st : Storage) : bool :=
  forallb (fun c => match failure st c with None => true | Some _ => false end)
    [create_connection; cursor; execute; fetchall; close].

(** Whether the store opens a connection and then fails a later call. *)
Definition fails_after_connect (st : Storage) : bool :=
  match failure st create_connection with
  | Some _ => false
  | None => negb (store_sound st)
  end.

(** The rows of the join that belong to a source. *)
Definition rows_of_source (st : Storage) (source_id : Z)
    : list (Miner.row * MinerIndex.row) :=
  List.filter (fun j => MinerIndex.source j.2 =? source_id) (miner_join_index st).

(** The sum of a list of integers, as the spec words a total. *)
Definition total (l : list Z) : Z := foldr Z.add 0 l.

(** The sum of a list of rationals. *)
Definition total_Q (l : list Q) : Q := foldr Qplus (0 # 1) l.

(** Whether a row of Miner and a row of MinerIndex are joined (same
    minerId) and belong to a bucket of a source. *)
Definition joined_in (source_id b : Z) (m : Miner.row) (i : MinerIndex.row) : bool :=
  (MinerIndex.minerId i =? Miner.minerId m)
  && (MinerIndex.source i =? source_id)
  && (MinerIndex.timeBucketId i =? b).

(** The sizes of a bucket as the spec words them, over the two tables: every
    pair of a Miner row and a MinerIndex row that are joined and belong to
    the bucket counts once, with the size of the index row, and for the
    adjusted size with that size times the credibility of the miner. *)
Definition bucket_raw_size (st : Storage) (source_id b : Z) : Z :=
  total
    (map (fun m =>
            total
              (map (fun i =>
                      if joined_in source_id b m i
                      then MinerIndex.contentSizeBytes i else 0)
                 (tblMinerIndex st)))
       (tblMiner st)).

Definition bucket_adj_size (st : Storage) (source_id b : Z) : Q :=
  total_Q
    (map (fun m =>
            total_Q
              (map (fun i =>
                      if joined_in source_id b m i
                      then (inject_Z (MinerIndex.contentSizeBytes i)
                            * Miner.credibility m)%Q
                      else 0 # 1)
                 (tblMinerIndex st)))
       (tblMiner st)).




(** ** Facts on the built-ins *)

Section SortedFacts.
Context {A K : Type} (leb : K -> K -> bool) (key : A -> K).
Hypothesis leb_total : forall a b, leb a b = true \/ leb b a = true.
Hypothesis leb_trans : forall a b c, leb a b = true -> leb b c = true -> leb a c = true.

Lemma insert_reverse_perm (x : A) (l : list A) :
  insert_reverse leb key x l ≡ₚ x :: l.
Proof.
  induction l as [|y l IH]; simpl; [done|].
  destruct (leb (key y) (key x)); [done|].
  rewrite IH. apply Permutation_swap.
Qed.

Lemma sorted_reverse_perm (l : list A) : sorted_reverse leb key l ≡ₚ l.
Proof.
  induction l as [|x l IH]; simpl; [done|].
  unfold sorted_reverse in *. simpl.
  rewrite insert_reverse_perm. by rewrite IH.
Qed.

Lemma insert_reverse_sorted (x : A) (l : list A) :
  StronglySorted (desc leb key) l -> StronglySorted (desc leb key) (insert_reverse leb key x l).
Proof.
  induction l as [|y l IH]; intros Hs; simpl.
  - repeat constructor.
  - inversion Hs as [|? ? Hl Hy]; subst.
    destruct (leb (key y) (key x)) eqn:Hyx.
    + constructor; [done|]. constructor; [done|].
      eapply Forall_impl; [exact Hy|].
      intros z Hz. unfold desc in *. eauto.
    + constructor; [by apply IH|].
      rewrite insert_reverse_perm. constructor; [|done].
      unfold desc. destruct (leb_total (key x) (key y)) as [H|H]; [done|congruence].
Qed.

Lemma sorted_reverse_sorted (l : list A) :
  StronglySorted (desc leb key) (sorted_reverse leb key l).
Proof.
  induction l as [|x l IH]; [constructor|].
  unfold sorted_reverse in *. simpl. by apply insert_reverse_sorted.
Qed.

Lemma sorted_reverse_length (l : list A) :
  length (sorted_reverse leb key l) = length l.
Proof. apply Permutation_length, sorted_reverse_perm. Qed.

(** In a descending list, whatever is cut off ranks no higher than what is
    kept. *)
Lemma sorted_take_drop (n : nat) (l : list A) :
  StronglySorted (desc leb key) l ->
  forall a b, a ∈ take n l -> b ∈ drop n l -> desc leb key a b.
Proof.
  revert n. induction l as [|x l IH]; intros n Hs a b Ha Hb.
  - rewrite take_nil in Ha. by apply elem_of_nil in Ha.
  - inversion Hs as [|? ? Hl Hx]; subst.
    destruct n as [|n]; simpl in *; [by apply elem_of_nil in Ha|].
    apply elem_of_cons in Ha as [->|Ha].
    + rewrite Forall_forall in Hx. apply Hx.
      by apply (subseteq_drop n l).
    + eapply IH; eauto.
Qed.

Lemma sorted_take (n : nat) (l : list A) :
  StronglySorted (desc leb key) l -> StronglySorted (desc leb key) (take n l).
Proof.
  revert n. induction l as [|x l IH]; intros n Hs.
  - rewrite take_nil. constructor.
  - destruct n as [|n]; simpl; [constructor|].
    inversion Hs as [|? ? Hl Hx]; subst.
    constructor; [by apply IH|].
    rewrite Forall_forall in *. intros y Hy. apply Hx.
    by apply (subseteq_take n l).
Qed.

End SortedFacts.

Lemma StronglySorted_weaken {A} (R1 R2 : A -> A -> Prop) (l : list A) :
  (forall a b, R1 a b -> R2 a b) -> StronglySorted R1 l -> StronglySorted R2 l.
Proof.
  intros HR. induction 1 as [|x l Hl IH Hx]; constructor; [done|].
  eapply Forall_impl; [exact Hx|]. intros y. apply HR.
Qed.

Lemma Qle_bool_total (a b : Q) : Qle_bool a b = true \/ Qle_bool b a = true.
Proof.
  rewrite !Qle_bool_iff.
  destruct (Qlt_le_dec b a) as [H|H]; [right; by apply Qlt_le_weak|by left].
Qed.

Lemma Qle_bool_trans (a b c : Q) :
  Qle_bool a b = true -> Qle_bool b c = true -> Qle_bool a c = true.
Proof. rewrite !Qle_bool_iff. apply Qle_trans. Qed.

Lemma Zleb_total (a b : Z) : (a <=? b) = true \/ (b <=? a) = true.
Proof. lia. Qed.

Lemma Zleb_trans (a b c : Z) :
  (a <=? b) = true -> (b <=? c) = true -> (a <=? c) = true.
Proof. lia. Qed.

Lemma slice_to_nonneg {A} (k : Z) (l : list A) :
  0 <= k -> slice_to k l = take (Z.to_nat k) l.
Proof. intros Hk. unfold slice_to. by destruct (Z.leb_spec 0 k); [|lia]. Qed.

Lemma slice_to_length {A} (k : Z) (l : list A) :
  0 <= k -> Z.of_nat (length (slice_to k l)) <= k.
Proof. intros Hk. rewrite slice_to_nonneg, length_take by done. lia. Qed.

Lemma filter_none {A} (f : A -> bool) (l : list A) :
  (forall x, x ∈ l -> f x = false) -> List.filter f l = [].
Proof.
  induction l as [|x l IH]; intros H; simpl; [done|].
  rewrite (H x) by left. apply IH. intros y Hy. apply H. by right.
Qed.

Lemma fold_left_concat {A B} (f : A -> B -> A) (ls : list (list B)) (a : A) :
  fold_left (fun acc l => fold_left f l acc) ls a = fold_left f (concat ls) a.
Proof.
  revert a. induction ls as [|l ls IH]; intros a; simpl; [done|].
  by rewrite IH, fold_left_app.
Qed.

(** ** Facts on the merge *)

Lemma process_items_first_occurrences (l : list Item) (all_data : list Item)
    (seen : gset Z) :
  (fold_left process_item l (all_data, seen)).1
  = all_data ++ filter (fun y => identity y ∉ seen) (first_occurrences l).
Proof.
  revert all_data seen.
  induction l as [|x l IH]; intros all_data seen; simpl.
  - by rewrite filter_nil, app_nil_r.
  - fold (identity x). destruct (decide (identity x ∈ seen)) as [Hin|Hnin].
    + rewrite IH. f_equal. rewrite filter_cons_False by tauto.
      rewrite list_filter_filter. apply list_filter_iff.
      intros y. split; [|tauto]. intros Hy. split; [done|congruence].
    + rewrite IH, <- app_assoc. f_equal. simpl.
      rewrite filter_cons_True by done. f_equal.
      rewrite list_filter_filter. apply list_filter_iff.
      intros y. rewrite elem_of_union, elem_of_singleton. tauto.
Qed.

Lemma process_data_first_occurrences (responses : list (list Item)) :
  (process_data responses).1 = first_occurrences (concat responses).
Proof.
  unfold process_data. rewrite fold_left_concat.
  rewrite process_items_first_occurrences. simpl.
  induction (first_occurrences (concat responses)) as [|x l IH]; [done|].
  rewrite filter_cons_True by apply not_elem_of_empty. by f_equal.
Qed.

Lemma first_occurrences_NoDup (l : list Item) :
  NoDup (identity <$> first_occurrences l).
Proof.
  induction l as [|x l IH]; simpl; [constructor|].
  constructor.
  - intros Hin. apply list_elem_of_fmap in Hin as (y & Hy & Hin).
    apply list_elem_of_filter in Hin as [Hne _]. congruence.
  - eapply sublist_NoDup; [exact IH|apply fmap_sublist, sublist_filter].
Qed.

(** Every identity that arrives is kept once. *)
Lemma first_occurrences_complete (l : list Item) (x : Item) :
  x ∈ l -> identity x ∈ identity <$> first_occurrences l.
Proof.
  induction l as [|y l IH]; intros Hx; [by apply elem_of_nil in Hx|].
  simpl.
  destruct (decide (identity x = identity y)) as [->|Hne]; [by left|].
  apply elem_of_cons in Hx as [->|Hx]; [done|].
  right. apply IH in Hx. apply list_elem_of_fmap in Hx as (z & Hz & Hin).
  apply list_elem_of_fmap. exists z. split; [done|].
  apply list_elem_of_filter. split; [congruence|done].
Qed.

(** What is kept arrives in the order it came. *)
Lemma first_occurrences_sublist (l : list Item) : first_occurrences l `sublist_of` l.
Proof.
  induction l as [|x l IH]; simpl; [done|].
  apply sublist_skip. etrans; [apply sublist_filter|done].
Qed.

(** ** Facts on peer selection *)

Lemma get_miner_uids_spec (metagraph : Metagraph) (my_uid u : Z) :
  u ∈ get_miner_uids metagraph my_uid
  <-> u ∈ uids metagraph /\ coordinator metagraph u = false /\ u <> my_uid.
Proof.
  unfold get_miner_uids, is_miner.
  rewrite !list_elem_of_In, filter_In, andb_true_iff, !negb_true_iff.
  rewrite Z.eqb_neq. tauto.
Qed.

Lemma get_miner_uids_is_miner (metagraph : Metagraph) (my_uid u : Z) :
  u ∈ get_miner_uids metagraph my_uid -> is_miner u metagraph = true.
Proof.
  intros Hu. apply get_miner_uids_spec in Hu as (_ & Hc & _).
  unfold is_miner. by rewrite Hc.
Qed.

Lemma qualified_miners_length (validator : Validator) (miner_uids : list Z) :
  length (qualified_miners validator miner_uids) = (length miner_uids / 2)%nat.
Proof.
  unfold qualified_miners. rewrite length_take, sorted_reverse_length.
  pose proof (Nat.div_mod_eq (length miner_uids) 2). lia.
Qed.

(** The qualified set is empty exactly when fewer than two peers are
    eligible. *)
Lemma qualified_miners_nil (validator : Validator) (miner_uids : list Z) :
  qualified_miners validator miner_uids = [] <-> (length miner_uids < 2)%nat.
Proof.
  rewrite <- length_zero_iff_nil, qualified_miners_length.
  split; intros H.
  - pose proof (Nat.div_mod_eq (length miner_uids) 2).
    pose proof (Nat.mod_upper_bound (length miner_uids) 2). lia.
  - by apply Nat.div_small.
Qed.

(** ** Facts on the query handler *)

(** With no qualified miner the 503 of line 40 is raised inside the [try],
    caught by the handler's [except Exception] and re-raised as a 500. *)
Lemma query_data_no_miners (request : QueryRequest) (validator : Validator)
    (rnd : nat) (net : Network Item) (t : list Event) :
  qualified_miners validator
    (get_miner_uids (metagraph validator) (uid validator)) = [] ->
  let e := HTTPException 503 "No miners available" in
  query_data request validator rnd net t
  = (Raise (HTTPException 500 (str_exn e)),
     t ++ [LogError ("Error processing request: " +:+ str_exn e)]).
Proof.
  intros Hq e. unfold query_data, try_except. by rewrite Hq.
Qed.

(** An unknown source makes the enum lookup of line 44 raise [KeyError],
    which the same [except Exception] turns into a 500. *)
Lemma query_data_unknown_source (request : QueryRequest) (validator : Validator)
    (rnd : nat) (net : Network Item) (t : list Event) :
  qualified_miners validator
    (get_miner_uids (metagraph validator) (uid validator)) <> [] ->
  DataSource !! upper (source request) = None ->
  let e := KeyError (upper (source request)) in
  query_data request validator rnd net t
  = (Raise (HTTPException 500 (str_exn e)),
     t ++ [LogError ("Error processing request: " +:+ str_exn e)]).
Proof.
  intros Hq Hs e. unfold query_data, try_except.
  destruct (qualified_miners _ _) as [|m ms]; [done|].
  unfold bind at 1. unfold DataSource_getitem. by rewrite Hs.
Qed.

(** With a qualified miner and a known source, one peer of the pool is drawn
    and called, and the request succeeds whatever the call does. *)
Lemma query_data_dispatch (request : QueryRequest) (validator : Validator)
    (rnd : nat) (net : Network Item) (t : list Event) (source_id : Z) :
  let miner_uids := get_miner_uids (metagraph validator) (uid validator) in
  let miners := qualified_miners validator miner_uids in
  miners <> [] ->
  DataSource !! upper (source request) = Some source_id ->
  exists u,
    miner_uids !! (rnd mod length miner_uids)%nat = Some u /\
    let synapse := make_synapse request source_id in
    let axon := axons (metagraph validator) u in
    let c := collected (net [axon] synapse 30) u in
    query_data request validator rnd net t
    = (Ok (success request miners miner_uids c.1),
       t ++ [DendriteOpen; Forward [axon] synapse 30] ++ c.2 ++ [DendriteClose]).
Proof.
  intros miner_uids miners Hq Hs.
  assert (Hlen : (2 <= length miner_uids)%nat).
  { destruct (Nat.lt_ge_cases (length miner_uids) 2) as [Hlt|]; [|done].
    apply qualified_miners_nil with (validator := validator) in Hlt. done. }
  destruct (lookup_lt_is_Some_2 miner_uids (rnd mod length miner_uids)%nat) as [u Hu].
  { apply Nat.mod_upper_bound. lia. }
  exists u. split; [done|].
  assert (Hm : is_miner u (metagraph validator) = true).
  { eapply get_miner_uids_is_miner, list_elem_of_lookup_2, Hu. }
  unfold query_data, try_except. fold miner_uids. fold miners.
  destruct miners as [|m ms] eqn:Hmi; [done|].
  unfold bind at 1. unfold DataSource_getitem. rewrite Hs. unfold ret at 1.
  unfold bind at 1. unfold with_context, random_choice.
  unfold bind at 1. rewrite Hu. unfold ret at 1. rewrite Hm.
  unfold try_except, dendrite_forward, bind, emit.
  simpl. rewrite <- !app_assoc. simpl.
  destruct (net _ _ _) as [[[|item items]|]|e]; simpl;
    unfold ret, raise, logging_error, emit; simpl;
    rewrite <- ?app_assoc; simpl; reflexivity.
Qed.

(** A request that succeeds was answered from the payloads of at most one
    peer. *)
Lemma query_data_Ok_inv (request : QueryRequest) (validator : Validator)
    (rnd : nat) (net : Network Item) (t0 t : list Event) (resp : QueryResponse Item) :
  let miner_uids := get_miner_uids (metagraph validator) (uid validator) in
  query_data request validator rnd net t0 = (Ok resp, t) ->
  exists responses,
    (length responses <= 1)%nat /\
    resp = success request (qualified_miners validator miner_uids) miner_uids responses.
Proof.
  intros miner_uids Hrun.
  destruct (decide (qualified_miners validator miner_uids = [])) as [Hq|Hq].
  { rewrite query_data_no_miners in Hrun by done. discriminate. }
  destruct (DataSource !! upper (source request)) as [source_id|] eqn:Hs.
  - destruct (query_data_dispatch request validator rnd net t0 source_id Hq Hs)
      as (u & _ & Heq).
    cbv zeta in Heq. rewrite Heq in Hrun. injection Hrun as <- _.
    eexists. split; [|reflexivity].
    unfold collected. destruct (net _ _ _) as [[[|item items]|]|e]; simpl; lia.
  - rewrite query_data_unknown_source in Hrun by done. discriminate.
Qed.

(** The drawn position decides the peer: in a pool without repetition each
    peer is drawn by exactly one residue of the draw. *)
Lemma random_choice_uniform (pool : list Z) (p : Z) :
  NoDup pool -> p ∈ pool ->
  exists i, (i < length pool)%nat /\
    forall rnd, random_choice rnd pool [] = (Ok p, [])
                <-> (rnd mod length pool)%nat = i.
Proof.
  intros Hnd Hp. apply list_elem_of_lookup in Hp as [i Hi].
  exists i. split; [by eapply lookup_lt_Some|].
  intros rnd. unfold random_choice. split.
  - destruct (pool !! (rnd mod length pool)%nat) as [x|] eqn:Hx; [|discriminate].
    unfold ret. intros [= ->]. eapply NoDup_lookup; eauto.
  - intros ->. by rewrite Hi.
Qed.

(** ** The claims on the query path *)

(** C1, as the code has it: when no peer is eligible, line 40 raises the 503
    the claim speaks of, but it does so inside the handler's [try], whose
    [except Exception] catches it (an [HTTPException] is an [Exception]) and
    raises a 500 in its place.  The handler answers 500, not 503. *)
Theorem query_data_no_eligible_peers_500 (request : QueryRequest)
    (validator : Validator) (rnd : nat) (net : Network Item) :
  get_miner_uids (metagraph validator) (uid validator) = [] ->
  (query_data request validator rnd net []).1
  = Raise (HTTPException 500 (str_exn (HTTPException 503 "No miners available")))
  /\ http_status (query_data request validator rnd net []).1 = 500.
Proof.
  intros Hpool.
  rewrite query_data_no_miners; [done|].
  apply qualified_miners_nil. rewrite Hpool. simpl. lia.
Qed.

(** C3: a request issues at most one remote invocation; an invocation has
    the timeout 30 and goes to the peer at the drawn position of the full
    eligible pool; every peer of the pool, qualified or not, is reached by
    some draw; and in a pool without repetition each peer is drawn by exactly
    one residue of the draw modulo the pool's size (the choice is uniform
    over the pool). *)
Theorem query_data_single_dispatch (request : QueryRequest)
    (validator : Validator) (rnd : nat) (net : Network Item) :
  let miner_uids := get_miner_uids (metagraph validator) (uid validator) in
  let t := (query_data request validator rnd net []).2 in
  (length (forwards t) <= 1)%nat
  /\ (forall axons' synapse timeout,
        Forward axons' synapse timeout ∈ t ->
        timeout = 30 /\
        exists u, miner_uids !! (rnd mod length miner_uids)%nat = Some u
                  /\ axons' = [axons (metagraph validator) u])
  /\ (forall source_id p,
        qualified_miners validator miner_uids <> [] ->
        DataSource !! upper (source request) = Some source_id ->
        p ∈ miner_uids ->
        exists rnd', (rnd' < length miner_uids)%nat /\
          Forward [axons (metagraph validator) p] (make_synapse request source_id) 30
          ∈ (query_data request validator rnd' net []).2)
  /\ (NoDup miner_uids ->
      forall p, p ∈ miner_uids ->
        exists i, (i < length miner_uids)%nat /\
          forall rnd', random_choice rnd' miner_uids [] = (Ok p, [])
                       <-> (rnd' mod length miner_uids)%nat = i).
Proof.
  intros miner_uids t.
  assert (Hcases :
    (forall ev, ev ∈ t -> is_Forward ev = false) \/
    exists source_id u c,
      miner_uids !! (rnd mod length miner_uids)%nat = Some u /\
      Forall (fun ev => is_Forward ev = false) c /\
      t = [DendriteOpen;
           Forward [axons (metagraph validator) u] (make_synapse request source_id) 30]
          ++ c ++ [DendriteClose]).
  { subst t.
    destruct (decide (qualified_miners validator miner_uids = [])) as [Hq|Hq].
    { left. rewrite query_data_no_miners by done. simpl.
      intros ev Hev. apply list_elem_of_singleton in Hev as ->. done. }
    destruct (DataSource !! upper (source request)) as [source_id|] eqn:Hs.
    - right.
      destruct (query_data_dispatch request validator rnd net [] source_id Hq Hs)
        as (u & Hu & Heq).
      cbv zeta in Heq. rewrite Heq. simpl.
      eexists source_id, u, _. split; [done|]. split; [|reflexivity].
      unfold collected. destruct (net _ _ _) as [[[|item items]|]|e]; simpl;
        repeat constructor.
    - left. rewrite query_data_unknown_source by done. simpl.
      intros ev Hev. apply list_elem_of_singleton in Hev as ->. done. }
  split; [|split; [|split]].
  - destruct Hcases as [Hno|(source_id & u & c & Hu & Hc & ->)].
    + unfold forwards. rewrite filter_none by done. simpl. lia.
    + unfold forwards. simpl. rewrite List.filter_app.
      rewrite (filter_none is_Forward c) by (by apply Forall_forall).
      simpl. lia.
  - intros axons' synapse timeout Hin.
    destruct Hcases as [Hno|(source_id & u & c & Hu & Hc & Ht)].
    + apply Hno in Hin. discriminate.
    + rewrite Ht in Hin. simpl in Hin.
      apply elem_of_cons in Hin as [Hin|Hin]; [discriminate|].
      apply elem_of_cons in Hin as [Hin|Hin].
      * injection Hin as -> -> ->. split; [done|]. by exists u.
      * apply elem_of_app in Hin as [Hin|Hin].
        -- rewrite Forall_forall in Hc. apply Hc in Hin. discriminate.
        -- apply list_elem_of_singleton in Hin. discriminate.
  - intros source_id p Hq Hs Hp.
    apply list_elem_of_lookup in Hp as [i Hi].
    assert (Hlt : (i < length miner_uids)%nat) by by eapply lookup_lt_Some.
    exists i. split; [done|].
    destruct (query_data_dispatch request validator i net [] source_id Hq Hs)
      as (u & Hu & Heq).
    fold miner_uids in Hu. rewrite Nat.mod_small in Hu by done.
    assert (u = p) as -> by congruence.
    cbv zeta in Heq. rewrite Heq. simpl. right. left.
  - intros Hnd p Hp. by apply random_choice_uniform.
Qed.

(** C4: for every list of collected payloads and every positive limit, the
    data of the response is the flattened payloads reduced to the first
    occurrence of each content identity, in order of arrival, cut to the
    limit; no two items of it share an identity and it has at most [limit]
    items.  The same bounds hold for whatever a successful request
    returns. *)
Theorem merged_data_first_seen_truncated (request : QueryRequest)
    (miners miner_uids : list Z) (responses : list (list Item)) :
  0 < limit request ->
  let resp := success request miners miner_uids responses in
  data resp
  = take (Z.to_nat (limit request)) (first_occurrences (concat responses))
  /\ first_occurrences (concat responses) `sublist_of` concat responses
  /\ (forall x, x ∈ concat responses ->
        identity x ∈ identity <$> first_occurrences (concat responses))
  /\ unique_items (meta resp) = length (first_occurrences (concat responses))
  /\ NoDup (identity <$> data resp)
  /\ Z.of_nat (length (data resp)) <= limit request
  /\ (forall validator rnd net r t,
        query_data request validator rnd net [] = (Ok r, t) ->
        NoDup (identity <$> data r) /\ Z.of_nat (length (data r)) <= limit request).
Proof.
  intros Hlimit resp.
  assert (Hdata : forall rs ms us,
    data (success request ms us rs)
    = take (Z.to_nat (limit request)) (first_occurrences (concat rs))).
  { intros rs ms us. unfold success. simpl.
    rewrite slice_to_nonneg by lia. by rewrite process_data_first_occurrences. }
  assert (Hnodup : forall rs ms us, NoDup (identity <$> data (success request ms us rs))).
  { intros rs ms us. rewrite Hdata, fmap_take.
    eapply sublist_NoDup; [apply first_occurrences_NoDup|apply sublist_take]. }
  assert (Hlen : forall rs ms us,
    Z.of_nat (length (data (success request ms us rs))) <= limit request).
  { intros rs ms us. rewrite Hdata, length_take. lia. }
  split; [apply Hdata|].
  split; [apply first_occurrences_sublist|].
  split; [apply first_occurrences_complete|].
  split; [unfold resp, success; simpl; by rewrite process_data_first_occurrences|].
  split; [apply Hnodup|].
  split; [apply Hlen|].
  intros validator rnd net r t Hrun.
  apply query_data_Ok_inv in Hrun as (rs & _ & ->). split; [apply Hnodup|apply Hlen].
Qed.

(** C5: the qualified set is the eligible peers (those of the view that are
    neither coordinators nor the caller) ranked descending by trust weight
    and cut to the first half, rounded down; whatever it leaves out weighs no
    more than what it keeps; and its size is the [miners_queried] of every
    successful response. *)
Theorem qualified_miners_top_half (validator : Validator) :
  let mg := metagraph validator in
  let miner_uids := get_miner_uids mg (uid validator) in
  let miners := qualified_miners validator miner_uids in
  (forall u, u ∈ miner_uids
             <-> u ∈ uids mg /\ coordinator mg u = false /\ u <> uid validator)
  /\ (exists ranked,
        ranked ≡ₚ miner_uids
        /\ StronglySorted (fun a b => (I mg b <= I mg a)%Q) ranked
        /\ miners = take (length miner_uids / 2)%nat ranked
        /\ forall a b, a ∈ miners -> b ∈ drop (length miner_uids / 2)%nat ranked ->
                       (I mg b <= I mg a)%Q)
  /\ length miners = (length miner_uids / 2)%nat
  /\ (forall request rnd net resp t,
        query_data request validator rnd net [] = (Ok resp, t) ->
        miners_queried (meta resp) = length miners
        /\ total_miners (meta resp) = length miner_uids).
Proof.
  intros mg miner_uids miners.
  split; [apply get_miner_uids_spec|].
  split; [|split; [apply qualified_miners_length|]].
  - exists (sorted_reverse Qle_bool (I mg) miner_uids).
    pose proof (sorted_reverse_sorted Qle_bool (I mg) Qle_bool_total Qle_bool_trans
                  miner_uids) as Hs.
    split; [apply sorted_reverse_perm|]. split; [|split; [done|]].
    + eapply StronglySorted_weaken; [|exact Hs].
      intros a b Hab. by apply Qle_bool_iff.
    + intros a b Ha Hb. apply Qle_bool_iff.
      eapply (sorted_take_drop Qle_bool (I mg)); eauto.
  - intros request rnd net resp t Hrun.
    by apply query_data_Ok_inv in Hrun as (rs & _ & ->).
Qed.

(** C9: when a qualified miner exists, the source is known and the remote
    invocation of the drawn peer fails (a timeout, a transport error), the
    failure is logged, nothing is collected for the peer, no exception leaves
    the handler, and the request completes with status "success" and empty
    data. *)
Theorem query_data_absorbs_remote_failure (request : QueryRequest)
    (validator : Validator) (rnd : nat) (net : Network Item) (source_id u : Z)
    (e : Exn) :
  let mg := metagraph validator in
  let miner_uids := get_miner_uids mg (uid validator) in
  let miners := qualified_miners validator miner_uids in
  miners <> [] ->
  DataSource !! upper (source request) = Some source_id ->
  miner_uids !! (rnd mod length miner_uids)%nat = Some u ->
  net [axons mg u] (make_synapse request source_id) 30 = Fails e ->
  query_data request validator rnd net []
  = (Ok {| status := "success";
           data := [];
           meta := {| total_responses := 0;
                      unique_items := 0;
                      miners_queried := length miners;
                      total_miners := length miner_uids |} |},
     [DendriteOpen;
      Forward [axons mg u] (make_synapse request source_id) 30;
      LogError ("Error querying miner " +:+ pretty u +:+ ": " +:+ str_exn e);
      DendriteClose]).
Proof.
  intros mg miner_uids miners Hq Hs Hu He.
  destruct (query_data_dispatch request validator rnd net [] source_id Hq Hs)
    as (u' & Hu' & Heq).
  assert (u' = u) as -> by (fold mg miner_uids in Hu'; congruence).
  cbv zeta in Heq. rewrite Heq. fold mg. rewrite He. simpl.
  unfold success, slice_to. simpl. by rewrite !take_nil, Tauto.if_same.
Qed.

(** C10: a request whose source names no member of [DataSource] is answered
    with status 500, never 400: when a qualified miner exists the [KeyError]
    of the enum lookup reaches the handler's [except Exception], which raises
    the 500 carrying its text. *)
Theorem query_data_unrecognized_source_500 (request : QueryRequest)
    (validator : Validator) (rnd : nat) (net : Network Item) :
  let miner_uids := get_miner_uids (metagraph validator) (uid validator) in
  DataSource !! upper (source request) = None ->
  http_status (query_data request validator rnd net []).1 = 500
  /\ (qualified_miners validator miner_uids <> [] ->
      query_data request validator rnd net []
      = (Raise (HTTPException 500 (str_exn (KeyError (upper (source request))))),
         [LogError ("Error processing request: "
                    +:+ str_exn (KeyError (upper (source request))))])).
Proof.
  intros miner_uids Hs. split.
  - destruct (decide (qualified_miners validator miner_uids = [])) as [Hq|Hq].
    + by rewrite query_data_no_miners.
    + by rewrite query_data_unknown_source.
  - intros Hq. by rewrite query_data_unknown_source.
Qed.

(** ** Facts on the two reads of the store *)

Ltac run_store st :=
  unfold store_call, bind, ret, raise, emit, logging_error;
  repeat (simpl;
          match goal with
          | |- context [failure st ?c] => destruct (failure st c) eqn:?
          end);
  simpl.


(** An unknown source raises the 400 of line 121 inside the outer [try],
    whose [except Exception] catches it and raises a 500 in its place. *)
Lemma get_label_sizes_unknown_source (source : string) (validator : Validator)
    (t : list Event) :
  DataSource !! upper source = None ->
  let e := HTTPException 400 ("Invalid source: " +:+ source) in
  get_label_sizes source validator t
  = (Raise (HTTPException 500 (str_exn e)),
     t ++ [LogError ("Error getting label sizes: " +:+ str_exn e)]).
Proof.
  intros Hs e. unfold get_label_sizes, try_except, try_except_KeyError.
  unfold bind at 1. unfold DataSource_getitem. by rewrite Hs.
Qed.

Lemma get_age_sizes_unknown_source (source : string) (validator : Validator)
    (t : list Event) :
  DataSource !! upper source = None ->
  let e := HTTPException 400 ("Invalid source: " +:+ source) in
  get_age_sizes source validator t
  = (Raise (HTTPException 500 ("Error retrieving age sizes: " +:+ str_exn e)), t).
Proof.
  intros Hs e. unfold get_age_sizes, try_except, try_except_KeyError.
  unfold bind at 1. unfold DataSource_getitem. by rewrite Hs.
Qed.

(** A read that returns ran to its end, on a known source. *)
Lemma get_label_sizes_Ok_inv (source : string) (validator : Validator)
    (t0 t : list Event) (labels : list LabelSize.t) :
  get_label_sizes source validator t0 = (Ok labels, t) ->
  exists source_id,
    DataSource !! upper source = Some source_id
    /\ labels = map label_size_of (select_label_sizes (storage validator) source_id)
    /\ t = t0 ++ full_read SelectLabelSizes source_id.
Proof.
  destruct (DataSource !! upper source) as [source_id|] eqn:Hs.
  - intros Hrun. exists source_id. split; [done|]. revert Hrun.
    unfold get_label_sizes, try_except, try_except_KeyError, with_context.
    unfold bind at 1. unfold DataSource_getitem. rewrite Hs. unfold ret at 1.
    run_store (storage validator); try discriminate.
    intros [= <- <-]. rewrite <- !app_assoc. done.
  - rewrite get_label_sizes_unknown_source by done. discriminate.
Qed.

Lemma get_age_sizes_Ok_inv (source : string) (validator : Validator)
    (t0 t : list Event) (ages : list AgeSize.t) :
  get_age_sizes source validator t0 = (Ok ages, t) ->
  exists source_id,
    DataSource !! upper source = Some source_id
    /\ ages = map age_size_of (select_age_sizes (storage validator) source_id)
    /\ t = t0 ++ full_read SelectAgeSizes source_id.
Proof.
  destruct (DataSource !! upper source) as [source_id|] eqn:Hs.
  - intros Hrun. exists source_id. split; [done|]. revert Hrun.
    unfold get_age_sizes, try_except, try_except_KeyError, with_context.
    unfold bind at 1. unfold DataSource_getitem. rewrite Hs. unfold ret at 1.
    run_store (storage validator); try discriminate.
    intros [= <- <-]. rewrite <- !app_assoc. done.
  - rewrite get_age_sizes_unknown_source by done. discriminate.
Qed.

(** On a known source and a store that does not fail, the reads return. *)
Lemma get_label_sizes_returns (source : string) (validator : Validator)
    (t : list Event) (source_id : Z) :
  DataSource !! upper source = Some source_id ->
  (forall c, failure (storage validator) c = None) ->
  get_label_sizes source validator t
  = (Ok (map label_size_of (select_label_sizes (storage validator) source_id)),
     t ++ full_read SelectLabelSizes source_id).
Proof.
  intros Hs Hf.
  unfold get_label_sizes, try_except, try_except_KeyError, with_context.
  unfold bind at 1. unfold DataSource_getitem. rewrite Hs. unfold ret at 1.
  unfold store_call. rewrite !Hf.
  unfold bind, ret, emit. simpl. rewrite <- !app_assoc. done.
Qed.

Lemma get_age_sizes_returns (source : string) (validator : Validator)
    (t : list Event) (source_id : Z) :
  DataSource !! upper source = Some source_id ->
  (forall c, failure (storage validator) c = None) ->
  get_age_sizes source validator t
  = (Ok (map age_size_of (select_age_sizes (storage validator) source_id)),
     t ++ full_read SelectAgeSizes source_id).
Proof.
  intros Hs Hf.
  unfold get_age_sizes, try_except, try_except_KeyError, with_context.
  unfold bind at 1. unfold DataSource_getitem. rewrite Hs. unfold ret at 1.
  unfold store_call. rewrite !Hf.
  unfold bind, ret, emit. simpl. rewrite <- !app_assoc. done.
Qed.

(** ** Facts on the two statements *)

Lemma StronglySorted_map {A B} (f : A -> B) (R : B -> B -> Prop) (l : list A) :
  StronglySorted (fun a b => R (f a) (f b)) l -> StronglySorted R (map f l).
Proof.
  induction 1 as [|x l Hl IH Hx]; simpl; constructor; [done|].
  rewrite Forall_forall in Hx. apply Forall_forall. intros y Hy.
  apply list_elem_of_In, in_map_iff in Hy as (z & <- & Hz).
  by apply Hx, list_elem_of_In.
Qed.

(** A descending list without repeated keys is strictly descending. *)
Lemma StronglySorted_strict {A} (key : A -> Z) (l : list A) :
  StronglySorted (fun a b => key b <= key a) l ->
  NoDup (map key l) ->
  StronglySorted (fun a b => key b < key a) l.
Proof.
  induction 1 as [|x l Hl IH Hx]; simpl; intros Hnd; constructor.
  - apply IH. by apply NoDup_cons in Hnd as [_ ?].
  - apply NoDup_cons in Hnd as [Hnin _].
    rewrite Forall_forall in Hx. apply Forall_forall. intros y Hy.
    assert (key y <> key x); [|specialize (Hx y Hy); simpl in Hx; lia].
    intros Heq. apply Hnin. rewrite <- Heq.
    apply list_elem_of_In, in_map, list_elem_of_In, Hy.
Qed.

Lemma filter_filter_andb {A} (f g : A -> bool) (l : list A) :
  List.filter f (List.filter g l) = List.filter (fun x => g x && f x) l.
Proof.
  induction l as [|x l IH]; simpl; [done|].
  destruct (g x); simpl; [|done]. destruct (f x); by rewrite IH.
Qed.

(** With (source, labelValue) a key of the table, the labels of one source do
    not repeat. *)
Lemma label_key_NoDup (tbl : list APILabelSize.row) (source_id : Z) :
  NoDup (map (fun r => (APILabelSize.source r, APILabelSize.labelValue r)) tbl) ->
  NoDup (map APILabelSize.labelValue
           (List.filter (fun r => APILabelSize.source r =? source_id) tbl)).
Proof.
  induction tbl as [|r tbl IH]; simpl; intros Hnd; [constructor|].
  apply NoDup_cons in Hnd as [Hnin Hnd].
  destruct (Z.eqb_spec (APILabelSize.source r) source_id) as [Heq|Hne]; [|by apply IH].
  simpl. apply NoDup_cons. split; [|by apply IH].
  intros Hin. apply Hnin.
  apply list_elem_of_In, in_map_iff in Hin as (r' & Hlab & Hr').
  apply filter_In in Hr' as [Hr' Hsrc]. apply Z.eqb_eq in Hsrc.
  apply list_elem_of_In, in_map_iff. exists r'. split; [|done].
  by rewrite Hlab, Hsrc, Heq.
Qed.

Lemma miner_join_index_spec (st : Storage) (m : Miner.row) (i : MinerIndex.row) :
  (m, i) ∈ miner_join_index st
  <-> m ∈ tblMiner st /\ i ∈ tblMinerIndex st
      /\ MinerIndex.minerId i = Miner.minerId m.
Proof.
  unfold miner_join_index.
  rewrite !list_elem_of_In, in_flat_map. split.
  - intros (m' & Hm' & Hin). apply in_map_iff in Hin as (i' & [= <- <-] & Hi').
    apply filter_In in Hi' as [Hi' Heq]. apply Z.eqb_eq in Heq. done.
  - intros (Hm & Hi & Heq). exists m. split; [done|].
    apply in_map_iff. exists i. split; [done|].
    apply filter_In. split; [done|]. by apply Z.eqb_eq.
Qed.

(** The rows of [select_age_sizes] before they are ordered: one per bucket
    that has a contributing row, with the two sums over those rows. *)
Lemma select_age_sizes_row (st : Storage) (source_id : Z) (row : Z * Z * Q) :
  row ∈ select_age_sizes st source_id
  <-> contributing st source_id row.1.1 <> []
      /\ row.1.2
         = sum_Z (map (fun j => MinerIndex.contentSizeBytes j.2)
                    (contributing st source_id row.1.1))
      /\ row.2
         = sum_Q (map (fun j => (inject_Z (MinerIndex.contentSizeBytes j.2)
                                 * Miner.credibility j.1)%Q)
                    (contributing st source_id row.1.1)).
Proof.
  unfold select_age_sizes. cbv zeta.
  rewrite sorted_reverse_perm.
  rewrite list_elem_of_In, in_map_iff.
  setoid_rewrite <- list_elem_of_In.
  setoid_rewrite elem_of_remove_dups.
  setoid_rewrite filter_filter_andb. fold (contributing st source_id).
  assert (Hne : forall b,
    b ∈ map (fun j : Miner.row * MinerIndex.row => MinerIndex.timeBucketId j.2)
          (List.filter (fun j => MinerIndex.source j.2 =? source_id)
             (miner_join_index st))
    <-> contributing st source_id b <> []).
  { intros b. unfold contributing.
    rewrite list_elem_of_In, in_map_iff. split.
    - intros (j & <- & Hj) Hnil. apply filter_In in Hj as [Hj Hsrc].
      assert (Hin : In j (List.filter
        (fun j0 => (MinerIndex.source j0.2 =? source_id)
                   && (MinerIndex.timeBucketId j0.2 =? MinerIndex.timeBucketId j.2))
        (miner_join_index st))).
      { apply filter_In. split; [done|]. rewrite Hsrc. simpl. by apply Z.eqb_eq. }
      rewrite Hnil in Hin. done.
    - intros Hnil.
      destruct (List.filter _ _) as [|j js] eqn:Hf; [done|].
      assert (Hin : In j (j :: js)) by by left.
      rewrite <- Hf in Hin. apply filter_In in Hin as [Hj Hboth].
      apply andb_true_iff in Hboth as [Hsrc Hb]. apply Z.eqb_eq in Hb.
      exists j. split; [done|]. apply filter_In. done. }
  split.
  - intros (b & <- & Hb). simpl. split; [by apply Hne|done].
  - intros (Hb & Hraw & Hadj). exists row.1.1. split; [|by apply Hne].
    destruct row as [[b raw] adj]. simpl in *. by rewrite Hraw, Hadj.
Qed.

(** The buckets of the rows do not repeat. *)
Lemma select_age_sizes_NoDup (st : Storage) (source_id : Z) :
  NoDup (map (fun row : Z * Z * Q => row.1.1) (select_age_sizes st source_id)).
Proof.
  unfold select_age_sizes. cbv zeta.
  rewrite (Permutation_map _ (sorted_reverse_perm _ _ _)).
  rewrite map_map. simpl. rewrite map_id. apply NoDup_remove_dups.
Qed.

(** ** Facts on the lock *)



(** ** The claims on the statistics reads *)

(** C2, as the code has it: for a source that names no member of
    [DataSource], both reads raise the 400 the claim speaks of inside their
    outer [try], whose [except Exception] catches it and raises a 500 in its
    place.  Both endpoints answer 500, not 400. *)
Theorem stats_unknown_source_500 (source : string) (validator : Validator) :
  DataSource !! upper source = None ->
  http_status (get_label_sizes source validator []).1 = 500
  /\ http_status (get_age_sizes source validator []).1 = 500.
Proof.
  intros Hs.
  by rewrite get_label_sizes_unknown_source, get_age_sizes_unknown_source.
Qed.

(** The other half of C2 holds: the source is matched whatever its casing. *)
Lemma stats_source_case_insensitive (source source' : string)
    (validator : Validator) :
  upper source = upper source' ->
  http_status (get_label_sizes source validator []).1
  = http_status (get_label_sizes source' validator []).1
  /\ http_status (get_age_sizes source validator []).1
     = http_status (get_age_sizes source' validator []).1.
Proof.
  intros Heq. destruct (DataSource !! upper source) as [source_id|] eqn:Hs.
  - unfold get_label_sizes, get_age_sizes, try_except, try_except_KeyError.
    unfold bind at 1 4. unfold DataSource_getitem.
    rewrite <- Heq, Hs. done.
  - rewrite !get_label_sizes_unknown_source, !get_age_sizes_unknown_source;
      [done|congruence..].
Qed.

(** C6: for a recognized source the read returns, on a store that does not
    fail, and the list it returns holds one record for each row of the
    source in APILabelSize, with the row's label, raw size and adjusted size;
    it is sorted descending by adjusted size; and with (source, labelValue) a
    key of the table, no label occurs twice. *)
Theorem get_label_sizes_sorted_by_adjusted_size (source : string)
    (validator : Validator) (source_id : Z) :
  DataSource !! upper source = Some source_id ->
  let st := storage validator in
  let record_of (r : APILabelSize.row) := {|
    LabelSize.label_value := APILabelSize.labelValue r;
    LabelSize.content_size_bytes := APILabelSize.contentSizeBytes r;
    LabelSize.adj_content_size_bytes := APILabelSize.adjContentSizeBytes r
  |} in
  ((forall c, failure st c = None) ->
   exists labels t, get_label_sizes source validator [] = (Ok labels, t))
  /\ forall labels t,
       get_label_sizes source validator [] = (Ok labels, t) ->
       StronglySorted
         (fun a b => (LabelSize.adj_content_size_bytes b
                      <= LabelSize.adj_content_size_bytes a)%Q) labels
       /\ labels ≡ₚ map record_of
                      (List.filter (fun r => APILabelSize.source r =? source_id)
                         (tblAPILabelSize st))
       /\ (NoDup (map (fun r => (APILabelSize.source r, APILabelSize.labelValue r))
                    (tblAPILabelSize st)) ->
           NoDup (map LabelSize.label_value labels)).
Proof.
  intros Hs st record_of. split.
  { intros Hf. eexists _, _. by apply get_label_sizes_returns. }
  intros labels t Hrun.
  apply get_label_sizes_Ok_inv in Hrun as (sid & Hs' & -> & _).
  assert (sid = source_id) as -> by congruence. fold st.
  assert (Hperm :
    map label_size_of (select_label_sizes st source_id)
    ≡ₚ map record_of
         (List.filter (fun r => APILabelSize.source r =? source_id)
            (tblAPILabelSize st))).
  { unfold select_label_sizes.
    rewrite (Permutation_map _ (sorted_reverse_perm _ _ _)).
    by rewrite map_map. }
  split; [|split; [done|]].
  - apply StronglySorted_map. unfold select_label_sizes.
    eapply StronglySorted_weaken;
      [|apply (sorted_reverse_sorted Qle_bool _ Qle_bool_total Qle_bool_trans)].
    intros a b Hab. by apply Qle_bool_iff.
  - intros Hkey.
    rewrite (Permutation_map _ Hperm), map_map. simpl.
    by apply label_key_NoDup.
Qed.

(** ** More on the query path *)

(** The three ways a request can go. *)
Lemma query_data_cases (request : QueryRequest) (validator : Validator)
    (rnd : nat) (net : Network Item) (t : list Event) :
  let miner_uids := get_miner_uids (metagraph validator) (uid validator) in
  let miners := qualified_miners validator miner_uids in
  (miners = [] /\
   exists msg, query_data request validator rnd net t
               = (Raise (HTTPException 500 msg),
                  t ++ [LogError ("Error processing request: " +:+ msg)]))
  \/ (miners <> [] /\ DataSource !! upper (source request) = None /\
      exists msg, query_data request validator rnd net t
                  = (Raise (HTTPException 500 msg),
                     t ++ [LogError ("Error processing request: " +:+ msg)]))
  \/ (miners <> [] /\
      exists source_id u,
        DataSource !! upper (source request) = Some source_id
        /\ miner_uids !! (rnd mod length miner_uids)%nat = Some u
        /\ let synapse := make_synapse request source_id in
           let axon := axons (metagraph validator) u in
           let c := collected (net [axon] synapse 30) u in
           query_data request validator rnd net t
           = (Ok (success request miners miner_uids c.1),
              t ++ [DendriteOpen; Forward [axon] synapse 30] ++ c.2
                ++ [DendriteClose])).
Proof.
  intros miner_uids miners.
  destruct (decide (miners = [])) as [Hq|Hq].
  { left. split; [done|]. eexists. by apply query_data_no_miners. }
  right. destruct (DataSource !! upper (source request)) as [source_id|] eqn:Hs.
  - right. split; [done|].
    destruct (query_data_dispatch request validator rnd net t source_id Hq Hs)
      as (u & Hu & Heq).
    by exists source_id, u.
  - left. split; [done|]. split; [done|].
    eexists. by apply query_data_unknown_source.
Qed.

(** X1: a request succeeds exactly when at least two peers are eligible and
    the source names a member of [DataSource], whatever the draw and
    whatever the peer called answers. *)
Theorem query_data_succeeds_iff (request : QueryRequest) (validator : Validator)
    (rnd : nat) (net : Network Item) :
  (exists resp t, query_data request validator rnd net [] = (Ok resp, t))
  <-> (2 <= length (get_miner_uids (metagraph validator) (uid validator)))%nat
      /\ is_Some (DataSource !! upper (source request)).
Proof.
  pose proof (qualified_miners_nil validator
                (get_miner_uids (metagraph validator) (uid validator))) as Hnil.
  destruct (query_data_cases request validator rnd net [])
    as [(Hq & msg & Heq)|[(Hq & Hs & msg & Heq)|(Hq & sid & u & Hs & _ & Heq)]].
  - split.
    + intros (resp & t & Hrun). rewrite Heq in Hrun. discriminate.
    + intros [Hlen _]. apply Hnil in Hq. lia.
  - split.
    + intros (resp & t & Hrun). rewrite Heq in Hrun. discriminate.
    + intros [_ [sid Hsid]]. congruence.
  - split.
    + intros _. split; [|by exists sid].
      destruct (Nat.lt_ge_cases
                  (length (get_miner_uids (metagraph validator) (uid validator))) 2)
        as [Hlt|]; [|done].
      by apply Hnil in Hlt.
    + intros _. eexists _, _. exact Heq.
Qed.

(** X2: a request that fails leaves one log line and nothing else: no
    session is opened and no peer is called.  A request that succeeds opened
    one session, made one call with timeout 30 in it, logged at most one line
    (the failure of that call) and closed the session. *)
Theorem query_data_trace_shape (request : QueryRequest) (validator : Validator)
    (rnd : nat) (net : Network Item) :
  let run := query_data request validator rnd net [] in
  match run.1 with
  | Raise e => exists msg, run.2 = [LogError msg]
  | Ok _ =>
      exists axon synapse log,
        run.2 = [DendriteOpen; Forward [axon] synapse 30] ++ log ++ [DendriteClose]
        /\ (log = [] \/ exists msg, log = [LogError msg])
  end.
Proof.
  destruct (query_data_cases request validator rnd net [])
    as [(Hq & msg & Heq)|[(Hq & Hs & msg & Heq)|(Hq & sid & u & Hs & _ & Heq)]];
    cbv zeta in *; rewrite Heq; simpl.
  - by eexists.
  - by eexists.
  - eexists _, _, _. split; [reflexivity|].
    unfold collected. destruct (net _ _ _) as [[[|item items]|]|e]; simpl; eauto.
Qed.

(** X3: whatever is sent to a peer carries the request unchanged: the
    numeric value of the source as [DataSource] gives it for the upper-cased
    name, and the usernames, keywords, dates and limit of the request. *)
Theorem query_data_forwards_the_request (request : QueryRequest)
    (validator : Validator) (rnd : nat) (net : Network Item)
    (axons' : list Axon) (synapse : OnDemandRequest) (timeout : Z) :
  Forward axons' synapse timeout ∈ (query_data request validator rnd net []).2 ->
  DataSource !! upper (source request) = Some (od_source synapse)
  /\ od_usernames synapse = usernames request
  /\ od_keywords synapse = keywords request
  /\ od_start_date synapse = start_date request
  /\ od_end_date synapse = end_date request
  /\ od_limit synapse = limit request.
Proof.
  destruct (query_data_cases request validator rnd net [])
    as [(Hq & msg & Heq)|[(Hq & Hs & msg & Heq)|(Hq & sid & u & Hs & _ & Heq)]];
    cbv zeta in *; rewrite Heq; simpl; intros Hin.
  - apply list_elem_of_singleton in Hin. discriminate.
  - apply list_elem_of_singleton in Hin. discriminate.
  - apply elem_of_cons in Hin as [Hin|Hin]; [discriminate|].
    apply elem_of_cons in Hin as [Hin|Hin].
    { injection Hin as _ -> _. by rewrite Hs. }
    apply elem_of_app in Hin as [Hin|Hin].
    + unfold collected in Hin.
      destruct (net _ _ _) as [[[|item items]|]|e]; simpl in Hin;
        try (by apply elem_of_nil in Hin).
      apply list_elem_of_singleton in Hin. discriminate.
    + apply list_elem_of_singleton in Hin. discriminate.
Qed.

(** X4: the /query route answers 503 exactly when the API is not
    initialized, and then does nothing else; once it is, the only statuses
    are 200 and 500: the 503 of line 40 never reaches the caller. *)
Theorem route_query_status (api : option Validator) (request : QueryRequest)
    (rnd : nat) (net : Network Item) :
  let run := route_query api request rnd net [] in
  (http_status run.1 = 200 \/ http_status run.1 = 500 \/ http_status run.1 = 503)
  /\ (http_status run.1 = 503 <-> api = None)
  /\ (api = None -> run.2 = []).
Proof.
  destruct api as [validator|]; cbv zeta.
  - unfold route_query, depends_validator, get_validator, bind, ret.
    destruct (query_data_cases request validator rnd net [])
      as [(Hq & msg & Heq)|[(Hq & Hs & msg & Heq)|(Hq & sid & u & Hs & _ & Heq)]];
      cbv zeta in *; rewrite Heq; simpl;
      (split; [auto|]); (split; [|done]); split; discriminate.
  - simpl. split; [auto|]. split; done.
Qed.

(** ** More on the two reads of the store *)

(** Runs a read on every path (the source unknown, or known and each call on
    the store failing or not) and closes each case with [tac]. *)
Ltac read_all handler unknown tac :=
  match goal with
  | |- context [handler ?source ?validator] =>
      let Hs := fresh "Hs" in
      destruct (DataSource !! upper source) eqn:Hs;
      [ unfold handler, try_except, try_except_KeyError, with_context;
        unfold bind at 1; unfold DataSource_getitem; rewrite Hs;
        unfold ret at 1; run_store (storage validator); tac
      | rewrite unknown by done; simpl; tac ]
  end.

(** X5: a read succeeds exactly when the source names a member of
    [DataSource] and no call on the store fails. *)
Theorem stats_succeed_iff (source : string) (validator : Validator) :
  ((exists labels t, get_label_sizes source validator [] = (Ok labels, t))
   <-> is_Some (DataSource !! upper source)
       /\ store_sound (storage validator) = true)
  /\ ((exists ages t, get_age_sizes source validator [] = (Ok ages, t))
      <-> is_Some (DataSource !! upper source)
          /\ store_sound (storage validator) = true).
Proof.
  unfold store_sound. split.
  - read_all get_label_sizes get_label_sizes_unknown_source
      ltac:(split;
            [ intros (? & ? & ?); first [discriminate | split; [eauto|done]]
            | intros [[? ?] ?]; first [discriminate | eauto] ]).
  - read_all get_age_sizes get_age_sizes_unknown_source
      ltac:(split;
            [ intros (? & ? & ?); first [discriminate | split; [eauto|done]]
            | intros [[? ?] ?]; first [discriminate | eauto] ]).
Qed.

(** X6: neither read ever answers 400: the only statuses of the handlers
    are 200 and 500, and behind the dependency the routes answer 503 exactly
    when the API is not initialized. *)
Theorem route_stats_status (api : option Validator) (source : string) :
  let labels := (route_labels api source []).1 in
  let ages := (route_ages api source []).1 in
  (http_status labels = 200 \/ http_status labels = 500 \/ http_status labels = 503)
  /\ (http_status ages = 200 \/ http_status ages = 500 \/ http_status ages = 503)
  /\ (http_status labels = 503 <-> api = None)
  /\ (http_status ages = 503 <-> api = None).
Proof.
  destruct api as [validator|]; cbv zeta.
  - assert (Hl : http_status (get_label_sizes source validator []).1 = 200
                 \/ http_status (get_label_sizes source validator []).1 = 500).
    { read_all get_label_sizes get_label_sizes_unknown_source ltac:(auto). }
    assert (Ha : http_status (get_age_sizes source validator []).1 = 200
                 \/ http_status (get_age_sizes source validator []).1 = 500).
    { read_all get_age_sizes get_age_sizes_unknown_source ltac:(auto). }
    change (route_labels (Some validator) source [])
      with (get_label_sizes source validator []).
    change (route_ages (Some validator) source [])
      with (get_age_sizes source validator []).
    split; [destruct Hl; auto|]. split; [destruct Ha; auto|].
    split; (split; [|done]); intros H503; exfalso;
      rewrite H503 in *; destruct Hl, Ha; discriminate.
  - simpl. repeat split; auto.
Qed.

(** X7: a read leaves its connection open exactly when the source is known,
    the connection was opened and a later call on the store failed; in every
    other case no connection is open when the read is over. *)
Theorem stats_connection_leak (source : string) (validator : Validator) :
  let leaked :=
    match DataSource !! upper source with
    | Some _ => if fails_after_connect (storage validator) then 1%nat else 0%nat
    | None => 0%nat
    end in
  open_connections (get_label_sizes source validator []).2 = leaked
  /\ open_connections (get_age_sizes source validator []).2 = leaked.
Proof.
  cbv zeta. unfold fails_after_connect, store_sound. split.
  - read_all get_label_sizes get_label_sizes_unknown_source ltac:(reflexivity).
  - read_all get_age_sizes get_age_sizes_unknown_source ltac:(reflexivity).
Qed.

(** X8: the label read logs one line, its last event, whenever it fails and
    none when it returns; the age read never logs. *)
Theorem stats_logging (source : string) (validator : Validator) :
  let labels := get_label_sizes source validator [] in
  let ages := get_age_sizes source validator [] in
  match labels.1 with
  | Ok _ => log_lines labels.2 = []
  | Raise _ =>
      exists msg pre,
        log_lines labels.2 = [LogError msg] /\ labels.2 = pre ++ [LogError msg]
  end
  /\ log_lines ages.2 = [].
Proof.
  cbv zeta. split.
  - read_all get_label_sizes get_label_sizes_unknown_source
      ltac:(first [ reflexivity
                  | eexists _, [_; _; _; _; _; _; _]; split; reflexivity
                  | eexists _, [_; _; _; _; _; _]; split; reflexivity
                  | eexists _, [_; _; _; _; _]; split; reflexivity
                  | eexists _, [_; _; _; _]; split; reflexivity
                  | eexists _, [_; _; _]; split; reflexivity
                  | eexists _, [_; _]; split; reflexivity
                  | eexists _, [_]; split; reflexivity
                  | eexists _, []; split; reflexivity ]).
  - read_all get_age_sizes get_age_sizes_unknown_source ltac:(reflexivity).
Qed.

(** X9: the casing of the source does not matter to a read: two sources
    with the same upper-cased form get the same status, and the same outcome
    and trace when that form names a member of [DataSource]. *)
Theorem stats_ignore_casing (source source' : string) (validator : Validator) :
  upper source = upper source' ->
  http_status (get_label_sizes source validator []).1
  = http_status (get_label_sizes source' validator []).1
  /\ http_status (get_age_sizes source validator []).1
     = http_status (get_age_sizes source' validator []).1
  /\ (is_Some (DataSource !! upper source) ->
      get_label_sizes source validator [] = get_label_sizes source' validator []
      /\ get_age_sizes source validator [] = get_age_sizes source' validator []).
Proof.
  intros Heq.
  assert (Hsame : is_Some (DataSource !! upper source) ->
    get_label_sizes source validator [] = get_label_sizes source' validator []
    /\ get_age_sizes source validator [] = get_age_sizes source' validator []).
  { intros [source_id Hs].
    unfold get_label_sizes, get_age_sizes, try_except, try_except_KeyError.
    unfold bind at 1 3 5 7. unfold DataSource_getitem.
    rewrite <- Heq, Hs. done. }
  destruct (DataSource !! upper source) as [source_id|] eqn:Hs.
  - destruct Hsame as [-> ->]; done.
  - rewrite !get_label_sizes_unknown_source, !get_age_sizes_unknown_source;
      [done|congruence..].
Qed.

(** X10: a recognized source with nothing stored is answered with an empty
    list, not an error: the labels returned are empty exactly when
    APILabelSize has no row of the source, and the ages exactly when the join
    has none. *)
Theorem stats_empty_results (source : string) (validator : Validator)
    (source_id : Z) :
  DataSource !! upper source = Some source_id ->
  let st := storage validator in
  (forall labels t,
     get_label_sizes source validator [] = (Ok labels, t) ->
     labels = []
     <-> forall r, r ∈ tblAPILabelSize st -> APILabelSize.source r <> source_id)
  /\ (forall ages t,
        get_age_sizes source validator [] = (Ok ages, t) ->
        ages = [] <-> rows_of_source st source_id = []).
Proof.
  intros Hs st. split.
  - intros labels t Hrun.
    apply get_label_sizes_Ok_inv in Hrun as (sid & Hs' & -> & _).
    assert (sid = source_id) as -> by congruence. fold st.
    rewrite <- !length_zero_iff_nil, length_map.
    unfold select_label_sizes. rewrite sorted_reverse_length, length_map.
    rewrite length_zero_iff_nil. split.
    + intros Hnil r Hr Hsrc.
      assert (Hin : In r (List.filter
                            (fun r => APILabelSize.source r =? source_id)
                            (tblAPILabelSize st))).
      { apply filter_In. split; [by apply list_elem_of_In|by apply Z.eqb_eq]. }
      by rewrite Hnil in Hin.
    + intros Hnone. apply filter_none. intros r Hr.
      apply Z.eqb_neq. by apply Hnone.
  - intros ages t Hrun.
    apply get_age_sizes_Ok_inv in Hrun as (sid & Hs' & -> & _).
    assert (sid = source_id) as -> by congruence. fold st.
    rewrite <- (length_zero_iff_nil (map _ _)), length_map.
    unfold select_age_sizes. cbv zeta.
    rewrite sorted_reverse_length, length_map. fold (rows_of_source st source_id).
    rewrite length_zero_iff_nil. split.
    + intros Hnil. destruct (rows_of_source st source_id) as [|j js]; [done|].
      assert (Hin : MinerIndex.timeBucketId j.2
                    ∈ remove_dups
                        (map (fun j : Miner.row * MinerIndex.row =>
                                MinerIndex.timeBucketId j.2) (j :: js))).
      { apply elem_of_remove_dups. simpl. left. }
      rewrite Hnil in Hin. by apply elem_of_nil in Hin.
    + by intros ->.
Qed.

(** ** More on selection, merging and the response *)

(** X11: the casing of the source does not matter to a query: a request
    and the same request with its source in another casing get the same
    outcome and leave the same trace, whether the source is known or not. *)
Theorem query_data_ignores_casing (request : QueryRequest) (source' : string)
    (validator : Validator) (rnd : nat) (net : Network Item) (t : list Event) :
  upper source' = upper (source request) ->
  query_data
    {| source := source';
       usernames := usernames request;
       keywords := keywords request;
       start_date := start_date request;
       end_date := end_date request;
       limit := limit request |}
    validator rnd net t
  = query_data request validator rnd net t.
Proof.
  intros Heq. unfold query_data, make_synapse, success. simpl.
  by rewrite Heq.
Qed.

Lemma first_occurrences_filter (k : Z) (l : list Item) :
  first_occurrences (filter (fun y => identity y ≠ k) l)
  = filter (fun y => identity y ≠ k) (first_occurrences l).
Proof.
  induction l as [|x l IH]; [done|].
  destruct (decide (identity x = k)) as [Hk|Hk].
  - rewrite filter_cons_False by tauto. rewrite IH. simpl.
    rewrite filter_cons_False by tauto.
    rewrite list_filter_filter. apply list_filter_iff.
    intros y. rewrite Hk. tauto.
  - rewrite filter_cons_True by done. simpl.
    rewrite filter_cons_True by done. f_equal.
    rewrite IH, !list_filter_filter. apply list_filter_iff.
    intros y. tauto.
Qed.

Lemma first_occurrences_idemp (l : list Item) :
  first_occurrences (first_occurrences l) = first_occurrences l.
Proof.
  induction l as [|x l IH]; [done|].
  simpl. f_equal. rewrite first_occurrences_filter, IH.
  rewrite list_filter_filter. apply list_filter_iff. intros y. tauto.
Qed.

(** X12: merging what was already merged changes nothing, and the merge
    only sees the items in their order of arrival, not how they were split
    into payloads. *)
Theorem process_data_idempotent (responses responses' : list (list Item)) :
  (process_data [(process_data responses).1]).1 = (process_data responses).1
  /\ (concat responses = concat responses' ->
      (process_data responses).1 = (process_data responses').1).
Proof.
  split.
  - rewrite !process_data_first_occurrences. simpl. rewrite app_nil_r.
    apply first_occurrences_idemp.
  - intros Heq. by rewrite !process_data_first_occurrences, Heq.
Qed.

(** X13: the handler does not check the limit, and the data is what
    Python's slice gives for any integer: always a prefix of the unique
    items, [min limit n] of the [n] unique items for a limit that is not
    negative (none for 0), and all but the last [-limit] for a negative
    one. *)
Theorem success_data_for_any_limit (request : QueryRequest)
    (miners miner_uids : list Z) (responses : list (list Item)) :
  let resp := success request miners miner_uids responses in
  let n := Z.of_nat (unique_items (meta resp)) in
  data resp `prefix_of` first_occurrences (concat responses)
  /\ Z.of_nat (length (data resp))
     = (if 0 <=? limit request then Z.min (limit request) n
        else Z.max 0 (n + limit request)).
Proof.
  cbv zeta. unfold success, slice_to. simpl.
  rewrite process_data_first_occurrences.
  destruct (Z.leb_spec 0 (limit request)) as [Hk|Hk].
  - split; [apply prefix_take|]. rewrite length_take. lia.
  - split; [apply prefix_take|]. rewrite length_take. lia.
Qed.

(** X14: what the counters of a successful response always satisfy: at most
    one payload was collected; with none, nothing is unique and the data is
    empty; a payload brings at least one unique item; the data is never
    longer than the number of unique items; and at least two peers were
    eligible, half of them (rounded down) qualified. *)
Theorem query_data_meta_invariants (request : QueryRequest)
    (validator : Validator) (rnd : nat) (net : Network Item)
    (resp : QueryResponse Item) (t : list Event) :
  query_data request validator rnd net [] = (Ok resp, t) ->
  let m := meta resp in
  status resp = "success"
  /\ (total_responses m <= 1)%nat
  /\ (total_responses m = 0%nat -> unique_items m = 0%nat /\ data resp = [])
  /\ (total_responses m <= unique_items m)%nat
  /\ (length (data resp) <= unique_items m)%nat
  /\ (2 <= total_miners m)%nat
  /\ miners_queried m = (total_miners m / 2)%nat
  /\ (1 <= miners_queried m)%nat.
Proof.
  intros Hrun.
  destruct (query_data_cases request validator rnd net [])
    as [(Hq & msg & Heq)|[(Hq & Hs & msg & Heq)|(Hq & sid & u & Hs & _ & Heq)]];
    cbv zeta in *; rewrite Heq in Hrun; try discriminate.
  injection Hrun as <- _.
  set (pool := get_miner_uids (metagraph validator) (uid validator)) in *.
  pose proof (qualified_miners_length validator pool) as Hlen.
  assert (Hpool : (2 <= length pool)%nat).
  { destruct (Nat.lt_ge_cases (length pool) 2) as [Hlt|]; [|done].
    by apply (qualified_miners_nil validator) in Hlt. }
  assert (Hone : (1 <= length (qualified_miners validator pool))%nat).
  { destruct (qualified_miners validator pool); [done|simpl; lia]. }
  assert (Hdata : forall rs,
    (length (data (success request (qualified_miners validator pool) pool rs))
     <= unique_items
          (meta (success request (qualified_miners validator pool) pool rs)))%nat).
  { intros rs. unfold success, slice_to. simpl.
    destruct (0 <=? limit request); rewrite length_take; lia. }
  split; [done|].
  unfold collected.
  destruct (net _ _ _) as [[[|item items]|]|e]; simpl;
    repeat split; try done; try lia; try apply Hdata;
    try (intros; unfold slice_to; by rewrite !take_nil, Tauto.if_same).
  rewrite process_data_first_occurrences. simpl. lia.
Qed.

(** Sorting a list that is already descending changes nothing. *)
Lemma sorted_reverse_sorted_id {A K} (leb : K -> K -> bool) (key : A -> K)
    (l : list A) :
  StronglySorted (desc leb key) l -> sorted_reverse leb key l = l.
Proof.
  induction 1 as [|x l Hl IH Hx]; [done|].
  unfold sorted_reverse in *. simpl. rewrite IH.
  destruct l as [|y l]; [done|]. simpl.
  apply Forall_cons in Hx as [Hy _]. unfold desc in Hy. by rewrite Hy.
Qed.

(** X15: when the eligible peers already come in descending order of weight
    (equal weights included), the qualified miners are the first half of the
    pool as it stands: ties are never reordered. *)
Theorem qualified_miners_of_sorted_pool (validator : Validator)
    (miner_uids : list Z) :
  StronglySorted
    (fun a b => (I (metagraph validator) b <= I (metagraph validator) a)%Q)
    miner_uids ->
  qualified_miners validator miner_uids
  = take (length miner_uids / 2)%nat miner_uids.
Proof.
  intros Hs. unfold qualified_miners. f_equal.
  apply sorted_reverse_sorted_id.
  eapply StronglySorted_weaken; [|exact Hs].
  intros a b Hab. by apply Qle_bool_iff.
Qed.

(** ** Totals *)

Lemma sum_Z_total (l : list Z) : sum_Z l = total l.
Proof.
  assert (H : forall a, fold_left Z.add l a = a + total l).
  { induction l as [|x l IH]; intros a; unfold total in *; simpl; [lia|].
    rewrite IH. lia. }
  unfold sum_Z. rewrite H. lia.
Qed.

Lemma total_perm (l l' : list Z) : l ≡ₚ l' -> total l = total l'.
Proof.
  unfold total. induction 1; simpl; lia.
Qed.

Lemma total_map_add {A} (f g : A -> Z) (ks : list A) :
  total (map (fun b => f b + g b) ks) = total (map f ks) + total (map g ks).
Proof.
  unfold total. induction ks as [|k ks IH]; simpl; lia.
Qed.

(** Over keys that do not repeat, a value counted at one key is counted
    once if the key is there, and not at all otherwise. *)
Lemma total_at_key (k v : Z) (ks : list Z) :
  NoDup ks ->
  total (map (fun b => if k =? b then v else 0) ks)
  = if decide (k ∈ ks) then v else 0.
Proof.
  unfold total. induction 1 as [|b ks Hb Hnd IH]; simpl; [done|].
  rewrite IH. destruct (Z.eqb_spec k b) as [->|Hne].
  - rewrite (decide_False (P := b ∈ ks)) by done.
    rewrite (decide_True (P := b ∈ b :: ks)) by left. lia.
  - destruct (decide (k ∈ ks)) as [Hin|Hnin].
    + rewrite (decide_True (P := k ∈ b :: ks)) by (by right). lia.
    + rewrite (decide_False (P := k ∈ b :: ks)); [lia|]. intros Hin.
      apply elem_of_cons in Hin as [?|?]; done.
Qed.

(** Grouping by key loses nothing: the totals of the groups add up to the
    total of the rows. *)
Lemma total_by_group {A} (bucket size : A -> Z) (rows : list A) (ks : list Z) :
  NoDup ks ->
  (forall j, j ∈ rows -> bucket j ∈ ks) ->
  total (map (fun b => total (map size (List.filter (fun j => bucket j =? b) rows)))
           ks)
  = total (map size rows).
Proof.
  intros Hnd. induction rows as [|j rows IH]; intros Hks.
  - clear Hnd Hks. unfold total. simpl.
    induction ks as [|k ks IHk]; simpl; [done|]. by rewrite IHk.
  - rewrite map_ext with
      (g := fun b => (if bucket j =? b then size j else 0)
                     + total (map size (List.filter (fun j => bucket j =? b) rows))).
    2:{ intros b. simpl. destruct (bucket j =? b); unfold total; simpl; lia. }
    rewrite total_map_add, total_at_key by done.
    rewrite decide_True by (apply Hks; left).
    rewrite IH by (intros j' Hj'; apply Hks; by right).
    unfold total. simpl. lia.
Qed.

(** X16: grouping by bucket loses no byte: the raw sizes of the records
    returned add up to the raw size of all the rows of the join that belong
    to the source. *)
Theorem ages_conserve_raw_size (source : string) (validator : Validator)
    (source_id : Z) (ages : list AgeSize.t) (t : list Event) :
  DataSource !! upper source = Some source_id ->
  get_age_sizes source validator [] = (Ok ages, t) ->
  total (map AgeSize.content_size_bytes ages)
  = total (map (fun j => MinerIndex.contentSizeBytes j.2)
             (rows_of_source (storage validator) source_id)).
Proof.
  intros Hs Hrun.
  apply get_age_sizes_Ok_inv in Hrun as (sid & Hs' & -> & _).
  assert (sid = source_id) as -> by congruence.
  rewrite map_map. simpl.
  unfold select_age_sizes. cbv zeta.
  fold (rows_of_source (storage validator) source_id).
  rewrite (total_perm _ _ (Permutation_map _ (sorted_reverse_perm _ _ _))).
  rewrite map_map. simpl.
  rewrite map_ext with
    (g := fun b =>
            total (map (fun j : Miner.row * MinerIndex.row =>
                          MinerIndex.contentSizeBytes j.2)
                     (List.filter
                        (fun j : Miner.row * MinerIndex.row =>
                           MinerIndex.timeBucketId j.2 =? b)
                        (rows_of_source (storage validator) source_id))))
    by (intros b; apply sum_Z_total).
  apply (total_by_group
           (fun j : Miner.row * MinerIndex.row => MinerIndex.timeBucketId j.2)).
  - apply NoDup_remove_dups.
  - intros j Hj. apply elem_of_remove_dups, list_elem_of_In.
    apply (in_map (fun j : Miner.row * MinerIndex.row =>
                     MinerIndex.timeBucketId j.2)).
    by apply list_elem_of_In.
Qed.

(** ** The health check *)

(** X17: the /health route answers 503 while the API is not initialized and
    otherwise always returns, with no effect: its status is "healthy"
    exactly when the validator says so, and the miners it reports available
    are the [total_miners] of every successful query on the same validator;
    a query can only succeed when it reports at least two. *)
Theorem route_health_agrees_with_query (api : option Validator)
    (is_healthy : bool) (utcnow : Z) :
  match api with
  | None =>
      route_health api is_healthy utcnow []
      = (Raise (HTTPException 503 "API server not initialized"), [])
  | Some validator =>
      exists h,
        route_health api is_healthy utcnow [] = (Ok h, [])
        /\ (HealthResponse.status h = "healthy" <-> is_healthy = true)
        /\ HealthResponse.timestamp h = utcnow
        /\ forall request rnd net resp t,
             query_data request validator rnd net [] = (Ok resp, t) ->
             total_miners (meta resp) = HealthResponse.miners_available h
             /\ (2 <= HealthResponse.miners_available h)%nat
  end.
Proof.
  destruct api as [validator|]; [|done].
  eexists. split; [reflexivity|]. simpl.
  split; [by destruct is_healthy|]. split; [done|].
  intros request rnd net resp t Hrun.
  assert (Hsome : exists resp t,
            query_data request validator rnd net [] = (Ok resp, t)) by eauto.
  apply query_data_Ok_inv in Hrun as (rs & _ & ->). simpl. split; [done|].
  destruct (Nat.lt_ge_cases
              (length (get_miner_uids (metagraph validator) (uid validator))) 2)
    as [Hlt|]; [|done].
  apply (qualified_miners_nil validator) in Hlt.
  destruct Hsome as (resp & t' & Hrun).
  rewrite query_data_no_miners in Hrun by done. discriminate.
Qed.

(** ** The sizes of a bucket, over the two tables *)

Lemma filter_map_pair {A B} (p : A * B -> bool) (m : A) (l : list B) :
  List.filter p (map (pair m) l) = map (pair m) (List.filter (fun i => p (m, i)) l).
Proof.
  induction l as [|i l IH]; simpl; [done|].
  destruct (p (m, i)); simpl; by rewrite IH.
Qed.

Lemma filter_flat_map {A B} (p : B -> bool) (g : A -> list B) (l : list A) :
  List.filter p (flat_map g l) = flat_map (fun m => List.filter p (g m)) l.
Proof.
  induction l as [|m l IH]; simpl; [done|].
  by rewrite List.filter_app, IH.
Qed.

(** The rows that contribute to a bucket, miner by miner. *)
Lemma contributing_by_miner (st : Storage) (source_id b : Z) :
  contributing st source_id b
  = flat_map
      (fun m => map (pair m)
                  (List.filter (joined_in source_id b m) (tblMinerIndex st)))
      (tblMiner st).
Proof.
  unfold contributing, miner_join_index. rewrite filter_flat_map.
  apply flat_map_ext. intros m.
  rewrite filter_map_pair, filter_filter_andb. f_equal.
  apply List.filter_ext. intros i. unfold joined_in. simpl.
  by rewrite andb_assoc.
Qed.

Lemma total_app (l1 l2 : list Z) : total (l1 ++ l2) = total l1 + total l2.
Proof. unfold total. induction l1 as [|x l1 IH]; simpl; lia. Qed.

Lemma total_flat_map {A B} (h : B -> Z) (g : A -> list B) (l : list A) :
  total (map h (flat_map g l)) = total (map (fun m => total (map h (g m))) l).
Proof.
  induction l as [|m l IH]; simpl; [done|].
  rewrite map_app, total_app, IH. unfold total. simpl. lia.
Qed.

Lemma total_filter_pair {A B} (h : A * B -> Z) (p : B -> bool) (m : A)
    (l : list B) :
  total (map h (map (pair m) (List.filter p l)))
  = total (map (fun i => if p i then h (m, i) else 0) l).
Proof.
  unfold total. induction l as [|i l IH]; simpl; [done|].
  destruct (p i); simpl; lia.
Qed.

Lemma sum_Q_total (l : list Q) : (sum_Q l == total_Q l)%Q.
Proof.
  assert (H : forall a, (fold_left Qplus l a == a + total_Q l)%Q).
  { induction l as [|x l IH]; intros a; unfold total_Q in *; simpl.
    - ring.
    - rewrite IH. ring. }
  unfold sum_Q. rewrite H. ring.
Qed.

Lemma total_Q_app (l1 l2 : list Q) :
  (total_Q (l1 ++ l2) == total_Q l1 + total_Q l2)%Q.
Proof.
  unfold total_Q. induction l1 as [|x l1 IH]; simpl; [ring|].
  rewrite IH. ring.
Qed.

Lemma total_Q_ext {A} (f g : A -> Q) (l : list A) :
  (forall m, (f m == g m)%Q) ->
  (total_Q (map f l) == total_Q (map g l))%Q.
Proof.
  intros Hfg. unfold total_Q. induction l as [|m l IH]; simpl; [reflexivity|].
  by rewrite IH, Hfg.
Qed.

Lemma total_Q_flat_map {A B} (h : B -> Q) (g : A -> list B) (l : list A) :
  (total_Q (map h (flat_map g l))
   == total_Q (map (fun m => total_Q (map h (g m))) l))%Q.
Proof.
  induction l as [|m l IH]; simpl; [reflexivity|].
  rewrite map_app, total_Q_app, IH. unfold total_Q. simpl. reflexivity.
Qed.

Lemma total_Q_filter_pair {A B} (h : A * B -> Q) (p : B -> bool) (m : A)
    (l : list B) :
  (total_Q (map h (map (pair m) (List.filter p l)))
   == total_Q (map (fun i => if p i then h (m, i) else 0 # 1) l))%Q.
Proof.
  unfold total_Q. induction l as [|i l IH]; simpl; [reflexivity|].
  destruct (p i); simpl; rewrite IH; ring.
Qed.

(** The two sums of the statement, over the rows that contribute, are the
    sizes of the bucket over the two tables. *)
Lemma contributing_raw_size (st : Storage) (source_id b : Z) :
  sum_Z (map (fun j => MinerIndex.contentSizeBytes j.2)
           (contributing st source_id b))
  = bucket_raw_size st source_id b.
Proof.
  rewrite sum_Z_total, contributing_by_miner, total_flat_map.
  unfold bucket_raw_size. f_equal. apply map_ext. intros m.
  apply (total_filter_pair
           (fun j : Miner.row * MinerIndex.row => MinerIndex.contentSizeBytes j.2)).
Qed.

Lemma contributing_adj_size (st : Storage) (source_id b : Z) :
  (sum_Q (map (fun j => (inject_Z (MinerIndex.contentSizeBytes j.2)
                         * Miner.credibility j.1)%Q)
            (contributing st source_id b))
   == bucket_adj_size st source_id b)%Q.
Proof.
  rewrite sum_Q_total, contributing_by_miner, total_Q_flat_map.
  unfold bucket_adj_size. apply total_Q_ext. intros m.
  apply (total_Q_filter_pair
           (fun j : Miner.row * MinerIndex.row =>
              (inject_Z (MinerIndex.contentSizeBytes j.2)
               * Miner.credibility j.1)%Q)).
Qed.

Lemma contributing_nonempty (st : Storage) (source_id b : Z) :
  contributing st source_id b <> []
  <-> exists m i,
        m ∈ tblMiner st /\ i ∈ tblMinerIndex st
        /\ MinerIndex.minerId i = Miner.minerId m
        /\ MinerIndex.source i = source_id
        /\ MinerIndex.timeBucketId i = b.
Proof.
  assert (Hin : forall m i,
    (m, i) ∈ contributing st source_id b
    <-> m ∈ tblMiner st /\ i ∈ tblMinerIndex st
        /\ MinerIndex.minerId i = Miner.minerId m
        /\ MinerIndex.source i = source_id
        /\ MinerIndex.timeBucketId i = b).
  { intros m i. unfold contributing.
    rewrite list_elem_of_In, filter_In, <- list_elem_of_In, miner_join_index_spec.
    rewrite andb_true_iff, !Z.eqb_eq. simpl.
    split; [intros [(?&?&?) [? ?]]|intros (?&?&?&?&?)]; repeat split; assumption. }
  split.
  - intros Hne. destruct (contributing st source_id b) as [|[m i] js] eqn:Hc; [done|].
    exists m, i. apply Hin. left.
  - intros (m & i & Hmi) Hnil. apply Hin in Hmi. rewrite Hnil in Hmi.
    by apply elem_of_nil in Hmi.
Qed.

(** C7: for a recognized source the read returns, on a store that does not
    fail, and the list it returns is strictly descending by bucket id, so
    that it holds one record per bucket; its buckets are those of the source
    that have a Miner row and a MinerIndex row with the same minerId; the
    raw size of a record counts the size of every such pair of its bucket
    once, and its adjusted size counts, for every such pair, the size times
    the credibility of the miner.  Sizes are integers; REAL values are
    rationals and the adjusted size is equal as a rational. *)
Theorem get_age_sizes_aggregates_by_bucket (source : string)
    (validator : Validator) (source_id : Z) :
  DataSource !! upper source = Some source_id ->
  let st := storage validator in
  ((forall c, failure st c = None) ->
   exists ages t, get_age_sizes source validator [] = (Ok ages, t))
  /\ forall ages t,
       get_age_sizes source validator [] = (Ok ages, t) ->
       StronglySorted
         (fun a b => AgeSize.time_bucket_id b < AgeSize.time_bucket_id a) ages
       /\ (forall b,
             b ∈ map AgeSize.time_bucket_id ages
             <-> exists m i,
                   m ∈ tblMiner st /\ i ∈ tblMinerIndex st
                   /\ MinerIndex.minerId i = Miner.minerId m
                   /\ MinerIndex.source i = source_id
                   /\ MinerIndex.timeBucketId i = b)
       /\ (forall r, r ∈ ages ->
             AgeSize.content_size_bytes r
             = bucket_raw_size st source_id (AgeSize.time_bucket_id r)
             /\ (AgeSize.adj_content_size_bytes r
                 == bucket_adj_size st source_id (AgeSize.time_bucket_id r))%Q).
Proof.
  intros Hs st. split.
  { intros Hf. eexists _, _. by apply get_age_sizes_returns. }
  intros ages t Hrun.
  apply get_age_sizes_Ok_inv in Hrun as (sid & Hs' & -> & _).
  assert (sid = source_id) as -> by congruence. fold st.
  split; [|split].
  - apply StronglySorted_map. simpl.
    apply (StronglySorted_strict (fun row : Z * Z * Q => row.1.1));
      [|apply select_age_sizes_NoDup].
    unfold select_age_sizes. cbv zeta.
    eapply StronglySorted_weaken;
      [|apply (sorted_reverse_sorted Z.leb _ Zleb_total Zleb_trans)].
    intros a b Hab. by apply Z.leb_le.
  - intros b. rewrite <- contributing_nonempty, map_map. simpl.
    rewrite list_elem_of_In, in_map_iff. split.
    + intros (row & <- & Hrow).
      by apply list_elem_of_In, select_age_sizes_row in Hrow as [? _].
    + intros Hne.
      exists (b,
              sum_Z (map (fun j => MinerIndex.contentSizeBytes j.2)
                       (contributing st source_id b)),
              sum_Q (map (fun j => (inject_Z (MinerIndex.contentSizeBytes j.2)
                                    * Miner.credibility j.1)%Q)
                       (contributing st source_id b))).
      split; [done|]. by apply list_elem_of_In, select_age_sizes_row.
  - intros r Hr. apply list_elem_of_In, in_map_iff in Hr as (row & <- & Hrow).
    apply list_elem_of_In, select_age_sizes_row in Hrow as (_ & Hraw & Hadj).
    simpl. rewrite Hraw, Hadj. split.
    + apply contributing_raw_size.
    + apply contributing_adj_size.
Qed.




End Routes.

(** ** The sample deployment *)

Module Examples.
Import Sample.

Abbreviation query := (query_data str_item hash str_exn DataSource).
Abbreviation labels_of := (get_label_sizes str_exn DataSource).
Abbreviation ages_of := (get_age_sizes str_exn DataSource).

(** The scenario of the spec: of the peers 5 (weight 10) and 7 (weight 5)
    the qualified one is 5; the peer drawn is 7; it answers four items, two
    of them alike, and a request with limit 3 gets three unique items. *)
Example scenario_query :
  query (request "reddit" 3) (validator no_failure) 1 answering []
  = (Ok {| status := "success";
           data := ["a"; "b"; "c"];
           meta := {| total_responses := 1; unique_items := 3;
                      miners_queried := 1; total_miners := 2 |} |},
     [DendriteOpen;
      Forward [axons peers 7] (make_synapse (request "reddit" 3) 1) 30;
      DendriteClose]).
Proof. vm_compute. reflexivity. Qed.

Example scenario_qualified :
  qualified_miners (validator no_failure) (get_miner_uids peers 0) = [5].
Proof. vm_compute. reflexivity. Qed.

Example scenario_labels :
  (labels_of "Reddit" (validator no_failure) []).1
  = Ok [ {| LabelSize.label_value := "r/bitcoin";
            LabelSize.content_size_bytes := 700;
            LabelSize.adj_content_size_bytes := 350 # 1 |};
         {| LabelSize.label_value := "r/bittensor_";
            LabelSize.content_size_bytes := 400;
            LabelSize.adj_content_size_bytes := 300 # 1 |} ].
Proof. vm_compute. reflexivity. Qed.

Example scenario_ages :
  match (ages_of "Reddit" (validator no_failure) []).1 with
  | Ok ages =>
      map (fun r => (AgeSize.time_bucket_id r, AgeSize.content_size_bytes r)) ages
  | Raise _ => []
  end
  = [(101, 10); (100, 46)].
Proof. vm_compute. reflexivity. Qed.

(** The sizes of bucket 100 of source 1 over the two tables: 40 of miner 1,
    of credibility 1/2, and 6 of miner 2, of credibility 1. *)
Example scenario_bucket_100 :
  bucket_raw_size (store no_failure) 1 100 = 46
  /\ (bucket_adj_size (store no_failure) 1 100 == 26 # 1)%Q.
Proof. split; vm_compute; reflexivity. Qed.

(** C1 at a view whose only member is the caller: no peer is eligible and
    the answer is 500. *)
Lemma query_data_no_eligible_peers_500_witness :
  get_miner_uids (metagraph lonely_validator) (uid lonely_validator) = []
  /\ http_status
       (query (request "reddit" 3) lonely_validator 0 answering []).1 = 500.
Proof.
  split; [reflexivity|].
  apply (query_data_no_eligible_peers_500 str_item hash str_exn DataSource
           (request "reddit" 3) lonely_validator 0 answering).
  reflexivity.
Defined.

(** C3 at the scenario: peer 7 is in the pool, outside the qualified half,
    and some draw sends the request to it. *)
Lemma query_data_single_dispatch_witness :
  qualified_miners (validator no_failure) (get_miner_uids peers 0) = [5]
  /\ exists rnd,
       Forward [axons peers 7] (make_synapse (request "reddit" 3) 1) 30
       ∈ (query (request "reddit" 3) (validator no_failure) rnd answering []).2.
Proof.
  split; [vm_compute; reflexivity|].
  destruct (query_data_single_dispatch str_item hash str_exn DataSource
              (request "reddit" 3) (validator no_failure) 0 answering)
    as (_ & _ & Hreach & _).
  destruct (Hreach 1 7) as (rnd & _ & Hin).
  - vm_compute. discriminate.
  - vm_compute. reflexivity.
  - vm_compute. right. left.
  - exists rnd. exact Hin.
Defined.

(** C4 at the scenario's payload. *)
Lemma merged_data_first_seen_truncated_witness :
  0 < limit (request "reddit" 3)
  /\ data (success str_item hash (request "reddit" 3) [5] [5; 7]
             [["a"; "b"; "a"; "c"]])
     = take 3 (first_occurrences str_item hash ["a"; "b"; "a"; "c"]).
Proof.
  split; [reflexivity|].
  apply (merged_data_first_seen_truncated str_item hash str_exn DataSource
           (request "reddit" 3) [5] [5; 7] [["a"; "b"; "a"; "c"]]).
  reflexivity.
Defined.

(** C9 at the scenario, with a peer that times out. *)
Lemma query_data_absorbs_remote_failure_witness :
  qualified_miners (validator no_failure) (get_miner_uids peers 0) <> []
  /\ DataSource !! upper "reddit" = Some 1
  /\ get_miner_uids peers 0 !! (1 mod 2)%nat = Some 7
  /\ timing_out [axons peers 7] (make_synapse (request "reddit" 3) 1) 30
     = Fails (OtherException "TimeoutError")
  /\ (query (request "reddit" 3) (validator no_failure) 1 timing_out []).1
     = Ok {| status := "success";
             data := [];
             meta := {| total_responses := 0; unique_items := 0;
                        miners_queried := 1; total_miners := 2 |} |}.
Proof.
  assert (H1 : qualified_miners (validator no_failure) (get_miner_uids peers 0) <> [])
    by (vm_compute; discriminate).
  assert (H2 : DataSource !! upper "reddit" = Some 1) by (vm_compute; reflexivity).
  assert (H3 : get_miner_uids peers 0 !! (1 mod 2)%nat = Some 7) by reflexivity.
  assert (H4 : timing_out [axons peers 7] (make_synapse (request "reddit" 3) 1) 30
               = Fails (OtherException "TimeoutError")) by reflexivity.
  split; [exact H1|]. split; [exact H2|]. split; [exact H3|]. split; [exact H4|].
  rewrite (query_data_absorbs_remote_failure str_item hash str_exn DataSource
             (request "reddit" 3) (validator no_failure) 1 timing_out 1 7
             (OtherException "TimeoutError") H1 H2 H3 H4).
  reflexivity.
Defined.

(** C10 at a misspelt source. *)
Lemma query_data_unrecognized_source_500_witness :
  DataSource !! upper (source (request "redit" 3)) = None
  /\ http_status
       (query (request "redit" 3) (validator no_failure) 1 answering []).1 = 500.
Proof.
  split; [vm_compute; reflexivity|].
  apply (query_data_unrecognized_source_500 str_item hash str_exn DataSource
           (request "redit" 3) (validator no_failure) 1 answering).
  vm_compute. reflexivity.
Defined.

(** C2 at a misspelt source: both reads answer 500. *)
Lemma stats_unknown_source_500_witness :
  DataSource !! upper "redit" = None
  /\ http_status (labels_of "redit" (validator no_failure) []).1 = 500
  /\ http_status (ages_of "redit" (validator no_failure) []).1 = 500.
Proof.
  split; [vm_compute; reflexivity|].
  apply (stats_unknown_source_500 str_exn DataSource "redit" (validator no_failure)).
  vm_compute. reflexivity.
Defined.

(** C6 at the sample store. *)
Lemma get_label_sizes_sorted_by_adjusted_size_witness :
  DataSource !! upper "Reddit" = Some 1
  /\ exists labels t,
       labels_of "Reddit" (validator no_failure) [] = (Ok labels, t).
Proof.
  split; [vm_compute; reflexivity|].
  apply (get_label_sizes_sorted_by_adjusted_size str_exn DataSource "Reddit"
           (validator no_failure) 1).
  - vm_compute. reflexivity.
  - intros c. reflexivity.
Defined.

(** C7 at the sample store. *)
Lemma get_age_sizes_aggregates_by_bucket_witness :
  DataSource !! upper "Reddit" = Some 1
  /\ exists ages t,
       ages_of "Reddit" (validator no_failure) [] = (Ok ages, t).
Proof.
  split; [vm_compute; reflexivity|].
  apply (get_age_sizes_aggregates_by_bucket str_exn DataSource "Reddit"
           (validator no_failure) 1).
  - vm_compute. reflexivity.
  - intros c. reflexivity.
Defined.


(** X3 at the scenario: what peer 7 receives. *)
Lemma query_data_forwards_the_request_witness :
  Forward [axons peers 7] (make_synapse (request "reddit" 3) 1) 30
  ∈ (query (request "reddit" 3) (validator no_failure) 1 answering []).2
  /\ DataSource !! upper "reddit" = Some 1
  /\ od_keywords (make_synapse (request "reddit" 3) 1) = ["tao"]
  /\ od_limit (make_synapse (request "reddit" 3) 1) = 3.
Proof.
  assert (Hin : Forward [axons peers 7] (make_synapse (request "reddit" 3) 1) 30
                ∈ (query (request "reddit" 3) (validator no_failure) 1
                     answering []).2)
    by (vm_compute; right; left).
  split; [exact Hin|].
  destruct (query_data_forwards_the_request str_item hash str_exn DataSource
              (request "reddit" 3) (validator no_failure) 1 answering _ _ _ Hin)
    as (Hsrc & _ & Hkw & _ & _ & Hlim).
  split; [exact Hsrc|]. split; [exact Hkw|exact Hlim].
Defined.

(** X9 at two casings of one source. *)
Lemma stats_ignore_casing_witness :
  upper "Reddit" = upper "rEDDIT"
  /\ labels_of "Reddit" (validator no_failure) []
     = labels_of "rEDDIT" (validator no_failure) [].
Proof.
  split; [reflexivity|].
  apply (stats_ignore_casing str_exn DataSource "Reddit" "rEDDIT"
           (validator no_failure)).
  - reflexivity.
  - exists 1. vm_compute. reflexivity.
Defined.

(** X10 at the sample store, where source 1 has rows. *)
Lemma stats_empty_results_witness :
  DataSource !! upper "reddit" = Some 1
  /\ forall ages t,
       ages_of "reddit" (validator no_failure) [] = (Ok ages, t) ->
       ages = [] <-> rows_of_source (store no_failure) 1 = [].
Proof.
  split; [vm_compute; reflexivity|].
  apply (stats_empty_results str_exn DataSource "reddit" (validator no_failure) 1).
  vm_compute. reflexivity.
Defined.

(** X11 at the scenario, the source written in another casing. *)
Lemma query_data_ignores_casing_witness :
  upper "Reddit" = upper (source (request "reddit" 3))
  /\ query (request "Reddit" 3) (validator no_failure) 1 answering []
     = query (request "reddit" 3) (validator no_failure) 1 answering [].
Proof.
  split; [reflexivity|].
  apply (query_data_ignores_casing str_item hash str_exn DataSource
           (request "reddit" 3) "Reddit" (validator no_failure) 1 answering []).
  reflexivity.
Defined.

(** X14 at the scenario. *)
Lemma query_data_meta_invariants_witness :
  (exists resp t,
     query (request "reddit" 3) (validator no_failure) 1 answering []
     = (Ok resp, t)
     /\ (total_responses (meta resp) <= unique_items (meta resp))%nat
     /\ miners_queried (meta resp) = (total_miners (meta resp) / 2)%nat).
Proof.
  eexists _, _. split; [exact scenario_query|].
  destruct (query_data_meta_invariants str_item hash str_exn DataSource
              (request "reddit" 3) (validator no_failure) 1 answering _ _
              scenario_query) as (_ & _ & _ & Hu & _ & _ & Hq & _).
  split; [exact Hu|exact Hq].
Defined.

(** X15 at the scenario's pool, which comes in descending order. *)
Lemma qualified_miners_of_sorted_pool_witness :
  StronglySorted (fun a b => (I peers b <= I peers a)%Q) [5; 7]
  /\ qualified_miners (validator no_failure) [5; 7] = take 1 [5; 7].
Proof.
  assert (Hs : StronglySorted (fun a b => (I peers b <= I peers a)%Q) [5; 7]).
  { repeat constructor. unfold Qle. simpl. lia. }
  split; [exact Hs|].
  apply (qualified_miners_of_sorted_pool (validator no_failure) [5; 7] Hs).
Defined.

(** X16 at the sample store. *)
Lemma ages_conserve_raw_size_witness :
  DataSource !! upper "Reddit" = Some 1
  /\ total (map AgeSize.content_size_bytes
              (map age_size_of (select_age_sizes (store no_failure) 1)))
     = total (map (fun j : Miner.row * MinerIndex.row =>
                     MinerIndex.contentSizeBytes j.2)
                (rows_of_source (store no_failure) 1)).
Proof.
  assert (Hs : DataSource !! upper "Reddit" = Some 1) by (vm_compute; reflexivity).
  split; [exact Hs|].
  apply (ages_conserve_raw_size str_exn DataSource "Reddit" (validator no_failure)
           1 _ ([] ++ full_read SelectAgeSizes 1) Hs).
  apply get_age_sizes_returns; [exact Hs|]. intros c. reflexivity.
Defined.

End Examples.
